(** * mp3tomp4: download registry and ffmpeg job lifecycle

    A shallow embedding of the Express service in [index.js]: the temp-file
    store, the [downloads] registry with its periodic sweep, the
    [GET /download/:id] handler, [cleanupFiles], and the three callbacks
    (watchdog, ["error"], ["close"]) that the [POST /convert] handler
    attaches to the spawned ffmpeg process.

    The repository holds several revisions of [index.js].  The registry,
    the sweep, the download handler and [cleanupFiles] are the same text in
    every revision that has them; the [/convert] callbacks differ and are
    embedded once per revision:
    - [RevHeadersSent]: index.js lines 56-149 (watchdog 120 s, guards on
      [res.headersSent]);
    - [RevSafeRespond]: index.js lines 422-553 (watchdog 60 s, [safeRespond]);
    - [RevLight]: the revision with the single-threaded ffmpeg arguments
      (watchdog 180 s, [safeRespond], inputs removed first on close). *)

From Stdlib Require Import ZArith String Ascii List Lia.
From stdpp Require Import base option list strings pretty gmap fin_maps.

Local Open Scope Z_scope.
Local Open Scope string_scope.
Local Open Scope list_scope.

(** ** JavaScript values that reach the file-system calls *)

(** A path handed to [cleanupFiles] is a string, or one of the two empty
    values an optional chain can produce. *)
Inductive jsval :=
| JUndefined
| JNull
| JString (s : string).

(** [!p] on such a value: [undefined], [null] and the empty string are
    falsy. *)
Definition falsy (p : jsval) : bool :=
  match p with
  | JUndefined | JNull => true
  | JString s => bool_decide (s = "")
  end.

(** ** Exceptions and the state-and-exception monad *)

Inductive exn :=
| ERR_INVALID_ARG_TYPE      (* fs.unlink on a path that is not a string *)
| ERR_INVALID_ARG_VALUE     (* fs.unlink on a string that holds a NUL *)
| ERR_HTTP_HEADERS_SENT.    (* res.json on a response already sent *)

Inductive outcome (A : Type) :=
| Returned (a : A)
| Thrown (e : exn).
Arguments Returned {A} a.
Arguments Thrown {A} e.

Definition M (S A : Type) : Type := S → outcome A * S.

Definition ret {S A} (a : A) : M S A := λ s, (Returned a, s).
Definition throw {S A} (e : exn) : M S A := λ s, (Thrown e, s).
Definition bind {S A B} (m : M S A) (k : A → M S B) : M S B := λ s,
  match m s with
  | (Returned a, s') => k a s'
  | (Thrown e, s') => (Thrown e, s')
  end.
Definition gets {S A} (f : S → A) : M S A := λ s, (Returned (f s), s).
Definition modify {S} (f : S → S) : M S unit := λ s, (Returned tt, f s).

Declare Scope js_scope.
Delimit Scope js_scope with js.
Notation "'do' x <- m ; k" := (bind m (λ x, k))
  (at level 10, x name, m at level 100, k at level 200, only parsing) : js_scope.
Notation "m ;; k" := (bind m (λ _, k))
  (at level 100, k at level 200, right associativity, only parsing) : js_scope.

(** ** The temp-file store *)

(** What [fs.stat] can find at a path. *)
Inductive node :=
| File (size : Z)
| Dir.

Inductive errno := ENOENT | EISDIR.

Definition is_file (o : option node) : bool :=
  match o with Some (File _) => true | _ => false end.

(** ** Process events and the journal of observable actions *)

(** What the runtime can deliver to one conversion request: a chunk of
    ffmpeg's stderr, the watchdog timer, and the process's ["error"] and
    ["close"] events.  [EvClose] carries the exit code ([None] when the process died of a signal), the
    signal, and the values the handler reads from the environment on the
    success path: [Date.now()] for the id, the text of
    [Math.random().toString(16).slice(2)], and [Date.now()] for
    [createdAt]. *)
Inductive event :=
| EvData (chunk : string)
| EvWatchdog
| EvError
| EvClose (code : option Z) (signal : option string)
          (t_id : Z) (suffix : string) (t_created : Z).

Inductive entry :=
| JEvent (e : event)      (* the runtime invoked a callback *)
| JKill                   (* ff.kill("SIGKILL") *)
| JUnlink (p : string)    (* fs.unlink(p, ..) was called *)
| JSend (status : Z).     (* a response went out *)

(** ** Global state of the server process *)

Record Info := { path : string; createdAt : Z }.

Record World := {
  fs : gmap string node;
  downloads : gmap string Info;
  journal : list entry;
}.

Definition set_fs (f : gmap string node → gmap string node) (w : World) : World :=
  {| fs := f (fs w); downloads := downloads w; journal := journal w |}.
Definition set_downloads (f : gmap string Info → gmap string Info) (w : World) : World :=
  {| fs := fs w; downloads := f (downloads w); journal := journal w |}.
Definition record (e : entry) (w : World) : World :=
  {| fs := fs w; downloads := downloads w; journal := journal w ++ [e] |}.

(** ** fs.unlink and cleanupFiles *)

(** The result of the unlink system call on the store. *)
Definition unlink_sys (s : string) (d : gmap string node) : option errno * gmap string node :=
  match d !! s with
  | Some (File _) => (None, delete s d)
  | Some Dir => (Some EISDIR, d)
  | None => (Some ENOENT, d)
  end.

(** [fs.unlink(p, cb)]: validates [p] (throwing synchronously when it is
    not a string), performs the call and passes the error, if any, to the
    callback.  The callback runs as part of the call: nothing else is
    scheduled in between.  Path strings are taken to be free of NUL
    characters, as the ones multer and [path.join] produce are;
    [fs_unlink_any] has the validation of arbitrary values. *)
Definition fs_unlink (p : jsval) (cb : option errno → M World unit) : M World unit :=
  match p with
  | JString s =>
      (modify (record (JUnlink s)) ;;
       do err <- gets (λ w, (unlink_sys s (fs w)).1);
       modify (set_fs (λ d, (unlink_sys s d).2)) ;;
       cb err)%js
  | _ => throw ERR_INVALID_ARG_TYPE
  end.

(** [() => {}] *)
Definition noop (_ : option errno) : M World unit := ret tt.

(** [function cleanupFiles(paths)]: [for (const p of paths) { if (!p)
    continue; fs.unlink(p, () => {}); }], on the values the service passes
    to it: strings without NUL, [null] and [undefined].  [cleanupFiles_any]
    below is the same function on arbitrary values. *)
Fixpoint cleanupFiles (paths : list jsval) : M World unit :=
  match paths with
  | [] => ret tt
  | p :: rest =>
      if falsy p then cleanupFiles rest
      else (fs_unlink p noop ;; cleanupFiles rest)%js
  end.

(** The strings of a path list that [cleanupFiles] does not skip. *)
Fixpoint truthy_paths (paths : list jsval) : list string :=
  match paths with
  | [] => []
  | JString s :: rest => if bool_decide (s = "") then truthy_paths rest else s :: truthy_paths rest
  | _ :: rest => truthy_paths rest
  end.

(** Removing the regular file at [s], if there is one. *)
Definition remove_file (d : gmap string node) (s : string) : gmap string node :=
  (unlink_sys s d).2.

Definition cleaned (paths : list jsval) (w : World) : World :=
  {| fs := foldl remove_file (fs w) (truthy_paths paths);
     downloads := downloads w;
     journal := journal w ++ (JUnlink <$> truthy_paths paths) |}.

(** ** The download registry *)

(** [const DOWNLOAD_TTL_MS = 10 * 60 * 1000;] and
    [const CLEANUP_INTERVAL_MS = 60 * 1000;] *)
Definition DOWNLOAD_TTL_MS : Z := 10 * 60 * 1000.
Definition CLEANUP_INTERVAL_MS : Z := 60 * 1000.

(** [now - info.createdAt > DOWNLOAD_TTL_MS] *)
Definition expired (now : Z) (info : Info) : bool :=
  bool_decide (now - createdAt info > DOWNLOAD_TTL_MS).

(** The body of the sweep loop for one entry: [fs.unlink(info.path, () =>
    {}); downloads.delete(id);] when the entry is expired. *)
Definition sweep_entry (now : Z) (id : string) (info : Info) : M World unit :=
  if expired now info then
    (fs_unlink (JString (path info)) noop ;;
     modify (set_downloads (delete id)))%js
  else ret tt.

(** The [setInterval] callback, run with [Date.now() = now]: the loop over
    [downloads.entries()].  Deleting the entry being visited does not
    disturb a JavaScript [Map] iteration, so the loop visits every entry
    of the map as it was when the callback started.  A [Map] iterates in
    insertion order and [map_fold] in the order of the keys; the order
    shows only in the order of the [JUnlink] entries of the journal. *)
Definition sweep (now : Z) : M World unit := λ w,
  map_fold (λ id info (acc : M World unit), (acc ;; sweep_entry now id info)%js)
           (ret tt) (downloads w) w.

(** The template literal [`dl-${Date.now()}-${Math.random().toString(16).slice(2)}`];
    [suffix] is the text produced from [Math.random()]. *)
Definition make_id (t : Z) (suffix : string) : string :=
  "dl-" +:+ pretty t +:+ "-" +:+ suffix.

(** [downloads.set(id, { path: outPath, createdAt: Date.now() })] *)
Definition register (id outPath : string) (t_created : Z) : World → World :=
  set_downloads (<[id := {| path := outPath; createdAt := t_created |}]>).

(** ** HTTP responses *)

Inductive payload :=
| PError (error : string)
| PFailed (code : option Z) (signal : option string) (details : option string)
| PSuccess (url id : string) (expires_in_seconds : Z).

Inductive content :=
| BText (s : string)
| BJson (p : payload)
| BStream (file : string).     (* fs.createReadStream(file).pipe(res) *)

Record Response := {
  status : Z;
  headers : list (string * string);
  body : content;
}.

Definition dquote : string := String "034"%char EmptyString.

(** [res.status(404).send("Not Found")] *)
Definition not_found : Response :=
  {| status := 404; headers := []; body := BText "Not Found" |}.

(** The three [setHeader] calls followed by [stream.pipe(res)]; the status
    is left at its default, 200. *)
Definition stream_response (file : string) (size : Z) : Response :=
  {| status := 200;
     headers := [("Content-Type", "video/mp4");
                 ("Content-Disposition",
                  "attachment; filename=" +:+ dquote +:+ "output.mp4" +:+ dquote);
                 ("Content-Length", pretty size)];
     body := BStream file |}.

(** [app.get("/download/:id", ...)].  The [fs.stat] callback is run as part
    of the request. *)
Definition download (id : string) (w : World) : Response * World :=
  match downloads w !! id with
  | None => (not_found, w)
  | Some info =>
      match fs w !! path info with
      | Some (File size) => (stream_response (path info) size, w)
      | _ => (not_found, set_downloads (delete id) w)
      end
  end.

(** ** The server as a sequence of timed operations *)

(** Each operation carries the wall-clock time at which it runs.  The
    download handler never reads the clock. *)
Inductive op :=
| OpSweep (now : Z)
| OpDownload (now : Z) (id : string)
| OpRegister (t_id : Z) (suffix : string) (t_created : Z) (outPath : string)
| OpCleanup (paths : list jsval).

Definition serve (o : op) (w : World) : option Response * World :=
  match o with
  | OpSweep now => (None, (sweep now w).2)
  | OpDownload _ id => let '(r, w') := download id w in (Some r, w')
  | OpRegister t_id suffix t_created outPath =>
      (None, register (make_id t_id suffix) outPath t_created w)
  | OpCleanup paths => (None, (cleanupFiles paths w).2)
  end.

Definition serve_all (ops : list op) (w : World) : World :=
  foldl (λ w o, (serve o w).2) w ops.

Definition registers (o : op) : option string :=
  match o with
  | OpRegister t_id suffix _ _ => Some (make_id t_id suffix)
  | _ => None
  end.

(** ** One conversion request *)

(** The mutable state of one [POST /convert] request: the server state,
    the response object, the [responded] latch of the later revisions,
    whether the watchdog timer is still pending, the stderr tail, and the
    exception, if any, that escaped a callback and ended the process. *)
Record Job := {
  world : World;
  headersSent : bool;
  wire : list Response;
  responded : bool;
  armed : bool;
  errTail : string;
  uncaught : option exn;
}.

Definition set_world (f : World → World) (j : Job) : Job :=
  {| world := f (world j); headersSent := headersSent j; wire := wire j;
     responded := responded j; armed := armed j; errTail := errTail j;
     uncaught := uncaught j |}.
Definition set_responded (b : bool) (j : Job) : Job :=
  {| world := world j; headersSent := headersSent j; wire := wire j;
     responded := b; armed := armed j; errTail := errTail j;
     uncaught := uncaught j |}.
Definition set_armed (b : bool) (j : Job) : Job :=
  {| world := world j; headersSent := headersSent j; wire := wire j;
     responded := responded j; armed := b; errTail := errTail j;
     uncaught := uncaught j |}.
Definition set_uncaught (e : exn) (j : Job) : Job :=
  {| world := world j; headersSent := headersSent j; wire := wire j;
     responded := responded j; armed := armed j; errTail := errTail j;
     uncaught := Some e |}.
Definition set_errTail (f : string → string) (j : Job) : Job :=
  {| world := world j; headersSent := headersSent j; wire := wire j;
     responded := responded j; armed := armed j; errTail := f (errTail j);
     uncaught := uncaught j |}.
Definition send (r : Response) (j : Job) : Job :=
  {| world := record (JSend (status r)) (world j); headersSent := true;
     wire := wire j ++ [r];
     responded := responded j; armed := armed j; errTail := errTail j;
     uncaught := uncaught j |}.

(** Running a server-level action inside a request. *)
Definition in_world {A} (m : M World A) : M Job A := λ j,
  let '(r, w') := m (world j) in (r, set_world (λ _, w') j).

(** [res.status(st).json(p)].  Express refuses to write a second response:
    once the headers are out, [json] raises [ERR_HTTP_HEADERS_SENT] and
    nothing is written. *)
Definition res_json (st : Z) (p : payload) : M Job unit := λ j,
  if headersSent j then (Thrown ERR_HTTP_HEADERS_SENT, j)
  else (Returned tt, send {| status := st; headers := []; body := BJson p |} j).

(** [try { ff.kill("SIGKILL"); } catch {}] *)
Definition kill : M Job unit := in_world (modify (record JKill)).

(** [clearTimeout(watchdog)] *)
Definition clearTimeout : M Job unit := modify (set_armed false).

(** [a || b] on an optional header and a string. *)
Definition js_or (a : option string) (b : string) : string :=
  match a with
  | Some s => if bool_decide (s = "") then b else s
  | None => b
  end.

(** [`${host}`] when [host] may be [undefined]. *)
Definition js_show (a : option string) : string :=
  match a with Some s => s | None => "undefined" end.

(** [s.slice(-n)] *)
Definition slice_last (n : N) (s : string) : string :=
  substring (N.to_nat (N.of_nat (String.length s) - n)) (N.to_nat n) s.

(** [errTail += chunk.toString(); if (errTail.length > cap) errTail =
    errTail.slice(-cap);].  A chunk is given by its text, [chunk.toString()];
    a character of a Rocq string stands for one UTF-16 code unit, which is
    what [length] and [slice] count, so the text is faithful for ASCII
    output (one byte, one code unit); see [ascii_text]. *)
Definition capped (cap : N) (t : string) : string :=
  if (cap <? N.of_nat (String.length t))%N then slice_last cap t else t.
Definition capture (cap : N) (chunk : string) : M Job unit :=
  modify (set_errTail (λ t, capped cap (t +:+ chunk))).

(** The callbacks one revision attaches to the spawned process. *)
Record Handlers := {
  on_data : string → M Job unit;
  on_watchdog : M Job unit;
  on_error : M Job unit;
  on_close : option Z → option string → Z → string → Z → M Job unit;
}.

(** The constants captured by the callbacks of one request: the two
    upload paths, the output path, and what the success path reads from the
    request ([req.get("x-forwarded-proto")], [req.protocol],
    [req.get("host")]). *)
Record Closure := {
  audioPath : string;
  imagePath : string;
  outPath : string;
  x_forwarded_proto : option string;
  protocol : string;
  host : option string;
}.

Definition all_three (c : Closure) : list jsval :=
  [JString (audioPath c); JString (imagePath c); JString (outPath c)].
Definition inputs (c : Closure) : list jsval :=
  [JString (audioPath c); JString (imagePath c)].

(** [`${proto}://${host}/download/${id}`] with
    [proto = req.get("x-forwarded-proto") || req.protocol || "https"] *)
Definition download_url (c : Closure) (id : string) : string :=
  js_or (x_forwarded_proto c) (js_or (Some (protocol c)) "https")
    +:+ "://" +:+ js_show (host c) +:+ "/download/" +:+ id.

(** [{ url, id, expires_in_seconds: Math.floor(DOWNLOAD_TTL_MS / 1000) }] *)
Definition success_payload (c : Closure) (id : string) : payload :=
  PSuccess (download_url c id) id (DOWNLOAD_TTL_MS / 1000).

(** [code !== 0] *)
Definition nonzero (code : option Z) : bool := negb (bool_decide (code = Some 0)).

(** *** index.js lines 56-149: guards on [res.headersSent] *)
Module RevHeadersSent.
Section Callbacks.
Variable c : Closure.

Definition watchdog : M Job unit :=
    (kill ;;
     in_world (cleanupFiles (all_three c)) ;;
     do sent <- gets headersSent;
     if negb sent then res_json 504 (PError "ffmpeg_timeout") else ret tt)%js.

Definition error : M Job unit :=
    (clearTimeout ;;
     in_world (cleanupFiles (all_three c)) ;;
     do sent <- gets headersSent;
     if negb sent then res_json 500 (PError "ffmpeg_spawn_failed") else ret tt)%js.

Definition close (code : option Z) (signal : option string)
      (t_id : Z) (suffix : string) (t_created : Z) : M Job unit :=
    (clearTimeout ;;
     in_world (cleanupFiles (inputs c)) ;;
     if nonzero code then
       in_world (cleanupFiles [JString (outPath c)]) ;;
       do tail <- gets errTail;
       res_json 500 (PFailed code signal (Some tail))
     else
       let id := make_id t_id suffix in
       in_world (modify (register id (outPath c) t_created)) ;;
       res_json 200 (success_payload c id))%js.

Definition handlers : Handlers :=
    {| on_data := capture 6000;
       on_watchdog := watchdog; on_error := error; on_close := close |}.
End Callbacks.

Definition missing_message : string := "Missing 'audio' or 'image' file".
End RevHeadersSent.

(** *** index.js lines 422-553: the [responded] latch and [safeRespond] *)

(** [const safeRespond = (status, payload) => { if (responded ||
    res.headersSent) return; responded = true;
    res.status(status).json(payload); }], the same text in both revisions
    that have it. *)
Definition safeRespond (st : Z) (p : payload) : M Job unit :=
  (do r <- gets responded;
   do sent <- gets headersSent;
   if r || sent then ret tt
   else (modify (set_responded true) ;; res_json st p))%js.

Module RevSafeRespond.
Section Callbacks.
Variable c : Closure.

Definition watchdog : M Job unit :=
    (kill ;;
     in_world (cleanupFiles (all_three c)) ;;
     safeRespond 504 (PError "ffmpeg_timeout"))%js.

Definition error : M Job unit :=
    (clearTimeout ;;
     in_world (cleanupFiles (all_three c)) ;;
     safeRespond 500 (PError "ffmpeg_spawn_failed"))%js.

Definition close (code : option Z) (signal : option string)
      (t_id : Z) (suffix : string) (t_created : Z) : M Job unit :=
    (clearTimeout ;;
     do r <- gets responded;
     do sent <- gets headersSent;
     if r || sent then in_world (cleanupFiles (all_three c))
     else
       in_world (cleanupFiles (inputs c)) ;;
       if nonzero code then
         in_world (cleanupFiles [JString (outPath c)]) ;;
         do tail <- gets errTail;
         safeRespond 500 (PFailed code signal (Some (slice_last 4000 tail)))
       else
         let id := make_id t_id suffix in
         in_world (modify (register id (outPath c) t_created)) ;;
         safeRespond 200 (success_payload c id))%js.

Definition handlers : Handlers :=
    {| on_data := capture 12000;
       on_watchdog := watchdog; on_error := error; on_close := close |}.
End Callbacks.

Definition missing_message : string := "Missing 'audio' or 'image' file".
End RevSafeRespond.

(** *** The revision with the light ffmpeg arguments: inputs removed first *)
Module RevLight.
Section Callbacks.
Variable c : Closure.

Definition watchdog : M Job unit :=
    (kill ;;
     in_world (cleanupFiles (all_three c)) ;;
     safeRespond 504 (PError "ffmpeg_timeout"))%js.

Definition error : M Job unit :=
    (clearTimeout ;;
     in_world (cleanupFiles (all_three c)) ;;
     safeRespond 500 (PError "ffmpeg_spawn_failed"))%js.

Definition close (code : option Z) (signal : option string)
      (t_id : Z) (suffix : string) (t_created : Z) : M Job unit :=
    (clearTimeout ;;
     in_world (cleanupFiles (inputs c)) ;;
     do r <- gets responded;
     do sent <- gets headersSent;
     if r || sent then in_world (cleanupFiles [JString (outPath c)])
     else if nonzero code then
       in_world (cleanupFiles [JString (outPath c)]) ;;
       safeRespond 500 (PFailed code signal None)
     else
       let id := make_id t_id suffix in
       in_world (modify (register id (outPath c) t_created)) ;;
       safeRespond 200 (success_payload c id))%js.

(** This revision attaches no listener to stderr. *)
Definition handlers : Handlers :=
    {| on_data := λ _, ret tt;
       on_watchdog := watchdog; on_error := error; on_close := close |}.
End Callbacks.

Definition missing_message : string := "Missing audio or image".
End RevLight.

(** A revision of the [/convert] handler: its 400 message and its
    callbacks. *)
Record Revision := {
  missing : string;
  callbacks : Closure → Handlers;
}.

Definition rev_headers_sent : Revision :=
  {| missing := RevHeadersSent.missing_message; callbacks := RevHeadersSent.handlers |}.
Definition rev_safe_respond : Revision :=
  {| missing := RevSafeRespond.missing_message; callbacks := RevSafeRespond.handlers |}.
Definition rev_light : Revision :=
  {| missing := RevLight.missing_message; callbacks := RevLight.handlers |}.

Definition revisions : list Revision := [rev_headers_sent; rev_safe_respond; rev_light].

(** ** The runtime: delivering events to the callbacks *)

(** Running a callback: an exception that escapes it is uncaught and ends
    the process.  The job records it and receives nothing more; what that
    means for the other requests of the process is in [deliver_to]. *)
Definition call (m : M Job unit) (j : Job) : Job :=
  match m j with
  | (Returned _, j') => j'
  | (Thrown e, j') => set_uncaught e j'
  end.

(** Delivery of one event.  Nothing runs once the process has died; the
    timer callback runs only while the timer is pending, and a timer fires
    once. *)
Definition deliver (h : Handlers) (e : event) (j : Job) : Job :=
  match uncaught j with
  | Some _ => j
  | None =>
      let j' := set_world (record (JEvent e)) j in
      match e with
      | EvData chunk => call (on_data h chunk) j'
      | EvWatchdog =>
          if armed j then call (on_watchdog h) (set_armed false j') else j
      | EvError => call (on_error h) j'
      | EvClose code signal t_id suffix t_created =>
          call (on_close h code signal t_id suffix t_created) j'
      end
  end.

Definition run (h : Handlers) (es : list event) (j : Job) : Job :=
  foldl (λ j e, deliver h e j) j es.

(** ** The synchronous part of POST /convert *)

Record Upload := { upath : string; usize : Z }.

(** What the handler reads from the request and from the environment
    before it spawns: [req.files?.audio?.[0]], [req.files?.image?.[0]], the
    headers used for the URL, and [Date.now()] and the text from
    [Math.random()] used for the output path. *)
Record Request := {
  audio : option Upload;
  image : option Upload;
  req_x_forwarded_proto : option string;
  req_protocol : string;
  req_host : option string;
  t_out : Z;
  out_suffix : string;
}.

(** [path.join("/tmp", `output-${Date.now()}-${...}.mp4`)] *)
Definition make_outPath (t : Z) (suffix : string) : string :=
  "/tmp/output-" +:+ pretty t +:+ "-" +:+ suffix +:+ ".mp4".

Definition closure_of (r : Request) (a i : Upload) : Closure :=
  {| audioPath := upath a; imagePath := upath i;
     outPath := make_outPath (t_out r) (out_suffix r);
     x_forwarded_proto := req_x_forwarded_proto r;
     protocol := req_protocol r; host := req_host r |}.

(** A request whose response has not been started. *)
Definition fresh (w : World) (timer : bool) : Job :=
  {| world := w; headersSent := false; wire := []; responded := false;
     armed := timer; errTail := ""; uncaught := None |}.

(** The handler up to the point where it returns to the event loop: either
    the 400 response, with no process and no callbacks, or a spawned
    process with the watchdog pending and the callbacks attached. *)
Definition convert (v : Revision) (r : Request) (w : World) : Job * option Handlers :=
  match audio r, image r with
  | Some a, Some i => (fresh w true, Some (callbacks v (closure_of r a i)))
  | _, _ =>
      (send {| status := 400; headers := []; body := BJson (PError (missing v)) |}
            (fresh w false), None)
  end.

(** The whole request: the synchronous part, then the events the runtime
    delivers to the callbacks (none can arrive when nothing was spawned). *)
Definition serve_convert (v : Revision) (r : Request) (w : World) (es : list event) : Job :=
  match convert v r w with
  | (j, Some h) => run h es j
  | (j, None) => j
  end.

(** ** Vocabulary of the statements *)

Definition is_unlink (x : entry) : bool :=
  match x with JUnlink _ => true | _ => false end.

(** What the loop does to a world [w] when it visits the entries of [m]. *)
Record swept (now : Z) (m : gmap string Info) (w w' : World) : Prop := {
  swept_downloads : ∀ id,
    downloads w' !! id =
      match m !! id with
      | Some info => if expired now info then None else downloads w !! id
      | None => downloads w !! id
      end;
  swept_fs : ∀ p,
    fs w' !! p =
      if bool_decide (is_file (fs w !! p) = true ∧
                      ∃ id info, m !! id = Some info ∧ expired now info = true ∧ path info = p)
      then None else fs w !! p;
  swept_journal : ∃ l,
    journal w' = journal w ++ l ∧ Forall (λ x, is_unlink x = true) l ∧
    ∀ p, JUnlink p ∈ l ↔
         ∃ id info, m !! id = Some info ∧ expired now info = true ∧ path info = p;
}.

(** Strings without a dash: what the decimal digits of a number are. *)
Fixpoint dashless (s : string) : Prop :=
  match s with
  | EmptyString => True
  | String c r => c ≠ "-"%char ∧ dashless r
  end.

(** The events that end a job, as opposed to stderr output. *)
Definition terminal (e : event) : bool :=
  match e with EvData _ => false | _ => true end.

Definition first_terminal (es : list event) : option event :=
  head (filter (λ e, terminal e = true) es).

(** The status each terminal event is reported with. *)
Definition outcome_status (e : event) : Z :=
  match e with
  | EvData _ => 0
  | EvWatchdog => 504
  | EvError => 500
  | EvClose code _ _ _ _ => if nonzero code then 500 else 200
  end.

(** The response each terminal event stands for. *)
Definition reports (c : Closure) (e : event) (r : Response) : Prop :=
  match e with
  | EvData _ => False
  | EvWatchdog =>
      r = {| status := 504; headers := []; body := BJson (PError "ffmpeg_timeout") |}
  | EvError =>
      r = {| status := 500; headers := [];
             body := BJson (PError "ffmpeg_spawn_failed") |}
  | EvClose code signal t_id suffix _ =>
      if nonzero code then
        status r = 500 ∧ ∃ details, body r = BJson (PFailed code signal details)
      else
        r = {| status := 200; headers := [];
               body := BJson (success_payload c (make_id t_id suffix)) |}
  end.

(** A spawned job that has not answered yet. *)
Record pending (j : Job) : Prop := {
  pending_headers : headersSent j = false;
  pending_latch : responded j = false;
  pending_alive : uncaught j = None;
  pending_wire : wire j = [];
  pending_timer : armed j = true;
}.

(** What the three revisions have in common. *)
Record first_wins (c : Closure) (h : Handlers) : Prop := {
  fw_data : ∀ chunk j, pending j → pending (deliver h (EvData chunk) j);
  fw_first : ∀ e j, terminal e = true → pending j →
    ∃ r, wire (deliver h e j) = [r] ∧ reports c e r ∧
         headersSent (deliver h e j) = true;
  fw_later : ∀ e j, headersSent j = true →
    wire (deliver h e j) = wire j ∧ headersSent (deliver h e j) = true;
}.

(** The callbacks that answer through [safeRespond] never raise. *)
Definition never_throws (h : Handlers) : Prop :=
  ∀ e j, uncaught j = None → uncaught (deliver h e j) = None.


(** [unlinks_follow P seen l]: every [JUnlink] of [l] comes after an entry
    that satisfies [P] ([seen] tells whether one came before [l]). *)
Fixpoint unlinks_follow (P : entry → bool) (seen : bool) (l : list entry) : bool :=
  match l with
  | [] => true
  | x :: l' =>
      (if is_unlink x then seen else true) && unlinks_follow P (seen || P x) l'
  end.

(** The process is known to have exited: its ["close"] event arrived. *)
Definition exit_confirmed (x : entry) : bool :=
  match x with JEvent (EvClose _ _ _ _ _) => true | _ => false end.

(** The job is over for the handler: the process exited, could not be
    spawned, or has just been sent SIGKILL. *)
Definition job_stopped (x : entry) : bool :=
  match x with
  | JEvent (EvClose _ _ _ _ _) | JEvent EvError | JKill => true
  | _ => false
  end.

(** Events of a run in which the process ends by itself. *)
Definition natural (e : event) : bool :=
  match e with EvData _ | EvClose _ _ _ _ _ => true | _ => false end.

(** What one request appends to the journal. *)
Definition job_journal (v : Revision) (r : Request) (w : World) (es : list event)
  : list entry :=
  drop (length (journal w)) (journal (world (serve_convert v r w es))).

(** ** Concrete requests and server states *)

(** A registry with one entry, created at time 1000 by the registration
    lines of the close callback, after the sweep that ran at the instant
    its age reached the TTL. *)
Definition late_world : World :=
  serve_all
    [OpRegister 1000 "8f3a" 1000 "/tmp/output-1000-8f3a.mp4"; OpSweep 601000]
    {| fs := {[ "/tmp/output-1000-8f3a.mp4" := File 4096 ]};
       downloads := ∅; journal := [] |}.

Definition late_ops : list op :=
  [OpDownload 650000 "dl-1000-8f3a"; OpCleanup [JNull; JString "/tmp/3f9a61"];
   OpRegister 700000 "aa" 700000 "/tmp/output-699000-bb.mp4"].

(** Two conversions that finish in the same millisecond and draw the same
    text from [Math.random()]. *)
Definition same_tick_twice : World :=
  serve_all
    [OpRegister 1000 "8f3a" 1000 "/tmp/output-990-1c.mp4";
     OpRegister 1000 "8f3a" 1000 "/tmp/output-995-2d.mp4"]
    {| fs := {[ "/tmp/output-990-1c.mp4" := File 10;
                "/tmp/output-995-2d.mp4" := File 20 ]};
       downloads := ∅; journal := [] |}.

(** A request with both files, and a store that holds the two uploads and
    the output ffmpeg is writing. *)
Definition sample_request : Request :=
  {| audio := Some {| upath := "/tmp/3f9a61"; usize := 2000000 |};
     image := Some {| upath := "/tmp/77c1d0"; usize := 500000 |};
     req_x_forwarded_proto := Some "https";
     req_protocol := "http";
     req_host := Some "mp3tomp4.example";
     t_out := 1700000000000;
     out_suffix := "8f3a" |}.

Definition sample_world : World :=
  {| fs := {[ "/tmp/3f9a61" := File 2000000;
              "/tmp/77c1d0" := File 500000;
              "/tmp/output-1700000000000-8f3a.mp4" := File 65536 ]};
     downloads := ∅;
     journal := [] |}.

Definition sample_closure : Closure :=
  {| audioPath := "/tmp/3f9a61"; imagePath := "/tmp/77c1d0";
     outPath := "/tmp/output-1700000000000-8f3a.mp4";
     x_forwarded_proto := Some "https"; protocol := "http";
     host := Some "mp3tomp4.example" |}.

Definition sample_success : event :=
  EvClose (Some 0) None 1700000030000 "c41b" 1700000030001.

Definition sample_success_response : Response :=
  {| status := 200; headers := [];
     body := BJson (PSuccess
       "https://mp3tomp4.example/download/dl-1700000030000-c41b"
       "dl-1700000030000-c41b" 600) |}.

(** ** Vocabulary of the further properties *)

(** [s] without its first [n] characters. *)
Fixpoint sdrop (n : nat) (s : string) : string :=
  match n, s with
  | O, _ => s
  | S n', String _ r => sdrop n' r
  | S _, EmptyString => EmptyString
  end.

(** The last [k] characters of [s]; all of [s] when it is not longer. *)
Definition last_chars (k : N) (s : string) : string :=
  sdrop (String.length s - N.to_nat k) s.

(** Everything ffmpeg wrote to stderr, chunk after chunk. *)
Definition chunks_text (chunks : list string) : string :=
  foldr String.append "" chunks.

(** [late_close answered es]: some close event of [es] is delivered after
    the request has been answered ([answered] tells whether it was before
    [es]). *)
Fixpoint late_close (answered : bool) (es : list event) : bool :=
  match es with
  | [] => false
  | EvData _ :: es' => late_close answered es'
  | EvClose _ _ _ _ _ :: es' => answered || late_close true es'
  | _ :: es' => late_close true es'
  end.

Definition is_kill (x : entry) : bool :=
  match x with JKill => true | _ => false end.

(** How many times [ff.kill] was called, by the journal. *)
Fixpoint kills (l : list entry) : nat :=
  match l with
  | [] => 0
  | x :: l' => (if is_kill x then 1 else 0) + kills l'
  end.

Definition is_watchdog (e : event) : bool :=
  match e with EvWatchdog => true | _ => false end.

(** What the outcome [e] of a job adds to the registry [m]: the new entry
    on exit code 0, nothing otherwise. *)
Definition registered (c : Closure) (e : option event) (m : gmap string Info)
  : gmap string Info :=
  match e with
  | Some (EvClose code _ t_id suffix t_created) =>
      if nonzero code then m
      else <[make_id t_id suffix :=
               {| path := outPath c; createdAt := t_created |}]> m
  | _ => m
  end.

(** A request that carries the audio part only. *)
Definition sample_audio_only : Request :=
  {| audio := Some {| upath := "/tmp/3f9a61"; usize := 2000000 |};
     image := None;
     req_x_forwarded_proto := None;
     req_protocol := "http";
     req_host := Some "mp3tomp4.example";
     t_out := 1700000000000;
     out_suffix := "8f3a" |}.

(** The registry of [late_world] before its sweep. *)
Definition sample_registered : World :=
  serve_all
    [OpRegister 1000 "8f3a" 1000 "/tmp/output-1000-8f3a.mp4"]
    {| fs := {[ "/tmp/output-1000-8f3a.mp4" := File 4096 ]};
       downloads := ∅; journal := [] |}.

(** ** cleanupFiles on arbitrary JavaScript values *)

(** The values a caller could put in the list: strings, [null],
    [undefined], integers and booleans.  ([Buffer] and [URL] objects, which
    [fs.unlink] also takes as paths, and other objects are left out.) *)
Inductive jsany :=
| JSUndefined
| JSNull
| JSString (s : string)
| JSNumber (z : Z)
| JSBool (b : bool).

(** [!p] *)
Definition falsy_any (p : jsany) : bool :=
  match p with
  | JSUndefined | JSNull => true
  | JSString s => bool_decide (s = "")
  | JSNumber z => bool_decide (z = 0)
  | JSBool b => negb b
  end.

Definition nul : string := String "000"%char EmptyString.

Fixpoint has_nul (s : string) : bool :=
  match s with
  | EmptyString => false
  | String c r => Ascii.eqb c "000"%char || has_nul r
  end.

(** The exception [fs.unlink] raises for a value it does not take as a
    path: [ERR_INVALID_ARG_VALUE] for a string (it holds a NUL),
    [ERR_INVALID_ARG_TYPE] for a number or a boolean. *)
Definition rejection (p : jsany) : exn :=
  match p with
  | JSString _ => ERR_INVALID_ARG_VALUE
  | _ => ERR_INVALID_ARG_TYPE
  end.

(** [fs.unlink(p, cb)] with Node's validation of the path: a value that is
    not a string raises [ERR_INVALID_ARG_TYPE], a string with a NUL raises
    [ERR_INVALID_ARG_VALUE], both synchronously and before anything is
    unlinked. *)
Definition fs_unlink_any (p : jsany) (cb : option errno → M World unit)
  : M World unit :=
  match p with
  | JSString s =>
      if has_nul s then throw ERR_INVALID_ARG_VALUE
      else fs_unlink (JString s) cb
  | _ => throw ERR_INVALID_ARG_TYPE
  end.

Fixpoint cleanupFiles_any (paths : list jsany) : M World unit :=
  match paths with
  | [] => ret tt
  | p :: rest =>
      if falsy_any p then cleanupFiles_any rest
      else (fs_unlink_any p noop ;; cleanupFiles_any rest)%js
  end.

(** The values on which [cleanupFiles_any] goes through: the falsy ones,
    which it skips, and the strings without NUL. *)
Definition harmless (p : jsany) : bool :=
  falsy_any p || match p with JSString s => negb (has_nul s) | _ => false end.

(** The same value among the ones the service passes. *)
Definition narrow (p : jsany) : jsval :=
  match p with
  | JSString s => JString s
  | JSUndefined => JUndefined
  | _ => JNull
  end.

(** ** The download route behind Express *)

(** What Express makes of [:id]: the decoded text, or a decoding error for
    a malformed percent-encoding such as [%zz], which it passes to the error
    middleware instead of the route. *)
Inductive param :=
| Decoded (id : string)
| Malformed.

(** [app.use((err, _req, res, _next) => ...)]: 413 for multer's
    [LIMIT_FILE_SIZE], 500 [server_error] for every other error; [code] is
    [err?.code]. *)
Definition error_middleware (code : option string) : Response :=
  if bool_decide (code = Some "LIMIT_FILE_SIZE")
  then {| status := 413; headers := []; body := BJson (PError "File too large") |}
  else {| status := 500; headers := []; body := BJson (PError "server_error") |}.

(** [GET /download/:id] as the client sees it.  The error Express raises
    for a malformed parameter has no [code]. *)
Definition get_download (p : param) (w : World) : Response * World :=
  match p with
  | Decoded id => download id w
  | Malformed => (error_middleware None, w)
  end.

(** ** The Node process *)

(** All requests in flight share one process: the server state, each
    request with its callbacks (none for a request answered 400), and the
    uncaught exception that ended the process, if any. *)
Record Process := {
  shared : World;
  inflight : list (option Handlers * Job);
  exited : option exn;
}.

Definition boot (w : World) : Process :=
  {| shared := w; inflight := []; exited := None |}.

(** A new [POST /convert] request: the synchronous part of the handler. *)
Definition accept (v : Revision) (r : Request) (p : Process) : Process :=
  match exited p with
  | Some _ => p
  | None =>
      let '(j, h) := convert v r (shared p) in
      {| shared := world j; inflight := inflight p ++ [(h, j)]; exited := None |}
  end.

(** The runtime delivers event [e] to request number [i].  A dead process
    delivers nothing; an exception that escapes the callback ends the
    process. *)
Definition deliver_to (i : nat) (e : event) (p : Process) : Process :=
  match exited p with
  | Some _ => p
  | None =>
      match inflight p !! i with
      | Some (Some h, j) =>
          let j' := deliver h e (set_world (λ _, shared p) j) in
          {| shared := world j';
             inflight := <[i := (Some h, j')]> (inflight p);
             exited := uncaught j' |}
      | _ => p
      end
  end.

Definition process_run (p : Process) (evs : list (nat * event)) : Process :=
  foldl (λ p ie, deliver_to ie.1 ie.2 p) p evs.

(** The responses request number [i] has received. *)
Definition answers (i : nat) (p : Process) : list Response :=
  match inflight p !! i with
  | Some (_, j) => wire j
  | None => []
  end.

(** ** Text of stderr *)

(** Text in which every character is ASCII: there a byte of ffmpeg's
    output, a UTF-16 code unit of [chunk.toString()] and a character of
    the Rocq string are the same thing. *)
Fixpoint ascii_text (s : string) : bool :=
  match s with
  | EmptyString => true
  | String c r => (N_of_ascii c <? 128)%N && ascii_text r
  end.

(** A second request, in flight at the same time as [sample_request]. *)
Definition sample_request_b : Request :=
  {| audio := Some {| upath := "/tmp/b04e17"; usize := 3000000 |};
     image := Some {| upath := "/tmp/c9d2aa"; usize := 400000 |};
     req_x_forwarded_proto := Some "https";
     req_protocol := "http";
     req_host := Some "mp3tomp4.example";
     t_out := 1700000060000;
     out_suffix := "51e0" |}.

(** Two requests in flight in the first revision. *)
Definition two_in_flight (w : World) : Process :=
  accept rev_headers_sent sample_request_b
    (accept rev_headers_sent sample_request (boot w)).

(** 13000 characters of stderr in thirteen chunks: more than any of the
    caps. *)
Definition sample_long_stderr : list string :=
  replicate 13 (chunks_text (replicate 50 "frame=  1 fps=0.0 ; ")).

(** A list with a path that holds a NUL between two good ones. *)
Definition sample_nul_paths : list jsany :=
  [JSString "/tmp/3f9a61"; JSString ("/tmp/v" +:+ nul +:+ "x");
   JSString "/tmp/77c1d0"].

(** * Properties of the file store and of cleanupFiles *)

Lemma remove_file_lookup d s p :
  remove_file d s !! p =
    if bool_decide (p = s ∧ is_file (d !! p) = true) then None else d !! p.
Proof.
  unfold remove_file, unlink_sys.
  destruct (d !! s) as [[sz|]|] eqn:E; simpl.
  - destruct (decide (p = s)) as [->|Hne].
    + rewrite lookup_delete_eq, E; simpl. by rewrite bool_decide_eq_true_2.
    + rewrite lookup_delete_ne by done. rewrite bool_decide_eq_false_2; [done|tauto].
  - rewrite bool_decide_eq_false_2; [done|]. intros [-> H]. by rewrite E in H.
  - rewrite bool_decide_eq_false_2; [done|]. intros [-> H]. by rewrite E in H.
Qed.

Lemma remove_file_absent d s : is_file (d !! s) = false → remove_file d s = d.
Proof.
  unfold remove_file, unlink_sys. by destruct (d !! s) as [[sz|]|].
Qed.

Lemma foldl_remove_file_lookup ss d p :
  foldl remove_file d ss !! p =
    if bool_decide (p ∈ ss ∧ is_file (d !! p) = true) then None else d !! p.
Proof.
  revert d. induction ss as [|s ss IH]; intros d; simpl.
  - done.
  - rewrite IH, remove_file_lookup.
    destruct (is_file (d !! p)) eqn:F; repeat case_bool_decide;
      rewrite ?elem_of_cons in *; try done; try tauto.
    + destruct_and?. simpl in *. congruence.
    + exfalso. rewrite F in *. tauto.
Qed.

Lemma cleanupFiles_run paths w :
  cleanupFiles paths w = (Returned tt, cleaned paths w).
Proof.
  revert w. induction paths as [|p rest IH]; intros w.
  - unfold ret, cleaned; destruct w; simpl. by rewrite app_nil_r.
  - destruct p as [| |s]; try (simpl; rewrite IH; reflexivity).
    cbn [cleanupFiles falsy]. unfold cleaned. cbn [truthy_paths].
    destruct (bool_decide (s = "")) eqn:E; [by rewrite IH|].
    unfold bind, fs_unlink, bind, modify, gets, noop, ret; simpl.
    rewrite IH. unfold cleaned, remove_file; simpl.
    by rewrite <- app_assoc.
Qed.

Lemma cleanupFiles_any_harmless paths w :
  forallb harmless paths = true →
  cleanupFiles_any paths w = cleanupFiles (narrow <$> paths) w.
Proof.
  revert w. induction paths as [|p rest IH]; intros w H; [done|].
  simpl in H. apply andb_prop in H as [Hp Hrest].
  destruct p as [| |s|z|b]; cbn [cleanupFiles_any fmap list_fmap narrow
    cleanupFiles falsy falsy_any]; try (by apply IH).
  - unfold harmless in Hp. simpl in Hp.
    destruct (bool_decide (s = "")); [by apply IH|].
    simpl in Hp. apply negb_true_iff in Hp.
    unfold fs_unlink_any, bind. rewrite Hp.
    change ((fs_unlink (JString s) noop ;; cleanupFiles_any rest)%js w
            = (fs_unlink (JString s) noop ;; cleanupFiles (narrow <$> rest))%js w).
    unfold bind. destruct (fs_unlink (JString s) noop w) as [[[]|e] w1]; [|done].
    by apply IH.
  - unfold harmless in Hp. simpl in Hp. rewrite orb_false_r in Hp.
    rewrite Hp. by apply IH.
  - unfold harmless in Hp. simpl in Hp. rewrite orb_false_r in Hp.
    rewrite Hp. by apply IH.
Qed.

Lemma cleanupFiles_any_rejects bad after w :
  harmless bad = false →
  cleanupFiles_any (bad :: after) w = (Thrown (rejection bad), w).
Proof.
  unfold harmless. intros [Hf Hs]%orb_false_elim.
  cbn [cleanupFiles_any]. rewrite Hf.
  destruct bad as [| |s|z|b]; try done.
  apply negb_false_iff in Hs. unfold bind, fs_unlink_any. by rewrite Hs.
Qed.

Lemma cleanupFiles_any_app before rest w :
  forallb harmless before = true →
  cleanupFiles_any (before ++ rest) w =
    cleanupFiles_any rest (cleaned (narrow <$> before) w).
Proof.
  revert w. induction before as [|p l IH]; intros w H.
  - unfold cleaned; destruct w; simpl. by rewrite app_nil_r.
  - simpl in H. apply andb_prop in H as [Hp Hl].
    assert (Hone : cleanupFiles_any [p] w = (Returned tt, cleaned [narrow p] w)).
    { rewrite (cleanupFiles_any_harmless [p]) by (simpl; by rewrite Hp).
      apply cleanupFiles_run. }
    assert (Hstep : ∀ k, cleanupFiles_any (p :: k) w
                         = cleanupFiles_any k (cleaned [narrow p] w)).
    { intros k. cbn [cleanupFiles_any] in *.
      destruct (falsy_any p).
      - injection Hone as <-. done.
      - unfold bind in *. destruct (fs_unlink_any p noop w) as [[[]|e] w1];
          [|done]. by injection Hone as <-. }
    rewrite <- app_comm_cons, Hstep, IH by done.
    assert (Ht : truthy_paths (narrow p :: (narrow <$> l))
                 = truthy_paths [narrow p] ++ truthy_paths (narrow <$> l)).
    { destruct (narrow p) as [| |s]; simpl; try done.
      by destruct (bool_decide (s = "")). }
    rewrite fmap_cons. unfold cleaned. cbn [fs journal downloads].
    by rewrite Ht, foldl_app, fmap_app, app_assoc.
Qed.

Lemma harmless_split paths :
  forallb harmless paths = false →
  ∃ before bad after, paths = before ++ bad :: after ∧
    forallb harmless before = true ∧ harmless bad = false.
Proof.
  induction paths as [|p l IH]; [done|]. simpl.
  destruct (harmless p) eqn:Hp; simpl.
  - intros (before & bad & after & -> & Hb & Hbad)%IH.
    exists (p :: before), bad, after. simpl. by rewrite Hp.
  - intros _. by exists [], p, l.
Qed.

(** C10, as stated, fails: a path that holds a NUL makes [fs.unlink], and
    with it [cleanupFiles], throw [ERR_INVALID_ARG_VALUE]; the path before
    it has been unlinked by then and the one after it never is.  A number
    that is not zero makes it throw [ERR_INVALID_ARG_TYPE]. *)
Lemma cleanupFiles_throws_on_nul_path :
  cleanupFiles_any sample_nul_paths sample_world =
    (Thrown ERR_INVALID_ARG_VALUE,
     cleaned [JString "/tmp/3f9a61"] sample_world) ∧
  fs (cleanupFiles_any sample_nul_paths sample_world).2 !! "/tmp/3f9a61" = None ∧
  fs (cleanupFiles_any sample_nul_paths sample_world).2 !! "/tmp/77c1d0"
    = Some (File 500000) ∧
  cleanupFiles_any [JSNumber 42] sample_world
    = (Thrown ERR_INVALID_ARG_TYPE, sample_world).
Proof. vm_compute. done. Qed.

(** C10, amended.  [cleanupFiles] returns normally exactly on the lists
    whose elements are falsy ([undefined], [null], the empty string, [0],
    [false]) or strings without NUL, which are the lists the service passes
    to it.  On those it makes no [fs.unlink] call for a falsy element, calls
    it once, in order, for every other path, removes exactly the regular
    files found at those paths, leaves the registry alone, and changes
    nothing at all when none of the paths names an existing file.  On any
    other list the exception of [fs.unlink] escapes at the first element
    that is neither: the paths before it have been unlinked, the ones after
    it have not. *)
Theorem cleanupFiles_returns_iff_harmless (paths : list jsany) (w : World) :
  ((∃ w', cleanupFiles_any paths w = (Returned tt, w')) ↔
     forallb harmless paths = true) ∧
  (forallb harmless paths = true →
   ∃ w',
    cleanupFiles_any paths w = (Returned tt, w') ∧
    cleanupFiles (narrow <$> paths) w = (Returned tt, w') ∧
    journal w' = journal w ++ (JUnlink <$> truthy_paths (narrow <$> paths)) ∧
    Forall (λ s, s ≠ "" ∧ has_nul s = false ∧ JSString s ∈ paths)
           (truthy_paths (narrow <$> paths)) ∧
    downloads w' = downloads w ∧
    (∀ p, fs w' !! p =
          if bool_decide (p ∈ truthy_paths (narrow <$> paths) ∧
                          is_file (fs w !! p) = true)
          then None else fs w !! p) ∧
    (forallb (λ s, negb (is_file (fs w !! s)))
             (truthy_paths (narrow <$> paths)) = true →
     fs w' = fs w)) ∧
  (∀ before bad after,
     paths = before ++ bad :: after →
     forallb harmless before = true → harmless bad = false →
     cleanupFiles_any paths w =
       (Thrown (rejection bad), cleaned (narrow <$> before) w)).
Proof.
  assert (Hthrow : ∀ before bad after,
     paths = before ++ bad :: after →
     forallb harmless before = true → harmless bad = false →
     cleanupFiles_any paths w =
       (Thrown (rejection bad), cleaned (narrow <$> before) w)).
  { intros before bad after -> Hb Hbad.
    rewrite cleanupFiles_any_app by done.
    by apply cleanupFiles_any_rejects. }
  split; [|split; [|exact Hthrow]].
  - split.
    + intros [w' Hret]. destruct (forallb harmless paths) eqn:E; [done|].
      destruct (harmless_split paths E) as (before & bad & after & Hp & Hb & Hbad).
      rewrite (Hthrow before bad after Hp Hb Hbad) in Hret. done.
    + intros H. exists (cleaned (narrow <$> paths) w).
      rewrite cleanupFiles_any_harmless by done. apply cleanupFiles_run.
  - intros H. exists (cleaned (narrow <$> paths) w).
    split; [rewrite cleanupFiles_any_harmless by done; apply cleanupFiles_run|].
    split; [apply cleanupFiles_run|]. split; [done|]. split.
    { clear Hthrow. induction paths as [|p rest IH]; [done|].
      simpl in H. apply andb_prop in H as [Hp Hrest].
      specialize (IH Hrest).
      assert (IH' : Forall (λ s, s ≠ "" ∧ has_nul s = false ∧
                                 JSString s ∈ p :: rest)
                           (truthy_paths (narrow <$> rest))).
      { eapply Forall_impl; [exact IH|]. intros s (? & ? & ?).
        repeat split; try done. by right. }
      destruct p as [| |s|z|b]; simpl; try done.
      case_bool_decide as Hs; [done|]. constructor; [|done].
      unfold harmless in Hp. simpl in Hp.
      rewrite bool_decide_eq_false_2 in Hp by done. simpl in Hp.
      apply negb_true_iff in Hp. repeat split; try done. by left. }
    split; [done|]. split.
    { intros p. apply foldl_remove_file_lookup. }
    intros Hall. apply map_eq. intros p. simpl.
    rewrite foldl_remove_file_lookup.
    rewrite bool_decide_eq_false_2; [done|].
    intros [Hin Hf]. rewrite forallb_forall in Hall.
    apply list_elem_of_In in Hin. apply Hall in Hin. by rewrite Hf in Hin.
Qed.

(** * The sweep *)

Lemma sweep_entry_run now id info w :
  sweep_entry now id info w =
    (Returned tt,
     if expired now info then
       {| fs := remove_file (fs w) (path info);
          downloads := delete id (downloads w);
          journal := journal w ++ [JUnlink (path info)] |}
     else w).
Proof.
  unfold sweep_entry. destruct (expired now info); [|done].
  unfold bind, fs_unlink, bind, modify, gets, noop, ret, remove_file; simpl.
  reflexivity.
Qed.

Lemma is_file_remove_file d s p :
  is_file (remove_file d s !! p) = true → is_file (d !! p) = true.
Proof. rewrite remove_file_lookup. by case_bool_decide. Qed.

Lemma is_file_remove_file_same d s : is_file (remove_file d s !! s) = false.
Proof.
  rewrite remove_file_lookup. case_bool_decide as H; [done|].
  destruct (is_file (d !! s)) eqn:E; [|done]. exfalso. by apply H.
Qed.

Lemma exists_insert (m : gmap string Info) i x (Q : Info → Prop) :
  m !! i = None →
  (∃ id info, <[i:=x]> m !! id = Some info ∧ Q info) ↔
  Q x ∨ ∃ id info, m !! id = Some info ∧ Q info.
Proof.
  intros Hi. split.
  - intros (id & info & Hm & HQ). destruct (decide (i = id)) as [<-|Hne].
    + rewrite lookup_insert_eq in Hm. simplify_eq. by left.
    + rewrite lookup_insert_ne in Hm by done. right. eauto.
  - intros [HQ|(id & info & Hm & HQ)].
    + exists i, x. by rewrite lookup_insert_eq.
    + exists id, info. rewrite lookup_insert_ne; [done|]. intros ->. congruence.
Qed.

Ltac split_insert HB :=
  repeat match goal with
         | H : context [<[_:=_]> _ !! _] |- _ => rewrite HB in H
         end;
  clear HB.

Lemma sweep_loop now (m : gmap string Info) :
  ∀ w, ∃ w',
    map_fold (λ id info (acc : M World unit), (acc ;; sweep_entry now id info)%js)
             (ret tt) m w = (Returned tt, w') ∧
    swept now m w w'.
Proof.
  apply (map_fold_weak_ind (λ (r : M World unit) m,
    ∀ w, ∃ w', r w = (Returned tt, w') ∧ swept now m w w')); clear m.
  - intros w. exists w. split; [done|]. split.
    + intros id. by rewrite lookup_empty.
    + intros p. case_bool_decide as H; [|done].
      destruct H as (_ & id & info & H & _). by rewrite lookup_empty in H.
    + exists []. split; [by rewrite app_nil_r|]. split; [constructor|].
      intros p. split; [by intros ?%elem_of_nil|].
      intros (id & info & H & _). by rewrite lookup_empty in H.
  - intros i x m r Hi IH w.
    destruct (IH w) as (w1 & Hr & [Hd Hf (l & Hj & Hl & Hin)]).
    unfold bind. rewrite Hr, sweep_entry_run.
    eexists. split; [reflexivity|].
    destruct (expired now x) eqn:Ex.
    + split; simpl.
      * intros id. destruct (decide (i = id)) as [<-|Hne].
        -- by rewrite lookup_delete_eq, lookup_insert_eq, Ex.
        -- rewrite lookup_delete_ne, lookup_insert_ne by done. apply Hd.
      * intros p. rewrite remove_file_lookup, !Hf. clear Hd Hf Hin Hr IH.
        pose proof (exists_insert m i x
          (λ info, expired now info = true ∧ path info = p) Hi) as HB.
        destruct (is_file (fs w !! p)) eqn:F; repeat case_bool_decide;
          try done; exfalso; split_insert HB; simpl in *;
          intuition (first [congruence | eauto]).
      * exists (l ++ [JUnlink (path x)]). split; [by rewrite Hj, app_assoc|].
        split; [apply Forall_app; split; [done|by repeat constructor]|].
        intros p. rewrite elem_of_app, Hin, list_elem_of_singleton.
        rewrite (exists_insert m i x
          (λ info, expired now info = true ∧ path info = p) Hi).
        split; [intros [?|[= ->]]; [by right|by left]|].
        intros [[_ <-]|?]; [by right|by left].
    + split.
      * intros id. rewrite Hd. destruct (decide (i = id)) as [<-|Hne].
        -- by rewrite lookup_insert_eq, Ex, Hi.
        -- by rewrite lookup_insert_ne.
      * intros p. rewrite Hf. clear Hd Hf Hin Hr IH.
        pose proof (exists_insert m i x
          (λ info, expired now info = true ∧ path info = p) Hi) as HB.
        repeat case_bool_decide; try done; exfalso; split_insert HB;
          intuition (first [congruence | eauto]).
      * exists l. split; [done|]. split; [done|].
        intros p. rewrite Hin.
        rewrite (exists_insert m i x
          (λ info, expired now info = true ∧ path info = p) Hi).
        split; [by right|]. intros [[? _]|?]; [congruence|done].
Qed.

Lemma expired_gt now info :
  expired now info = true ↔ now - createdAt info > DOWNLOAD_TTL_MS.
Proof. unfold expired. apply bool_decide_eq_true. Qed.

Lemma sweep_run now w :
  ∃ w', sweep now w = (Returned tt, w') ∧ swept now (downloads w) w w'.
Proof. unfold sweep. apply sweep_loop. Qed.

Lemma sweep_lookup now w id :
  downloads (sweep now w).2 !! id =
    match downloads w !! id with
    | Some info => if expired now info then None else Some info
    | None => None
    end.
Proof.
  destruct (sweep_run now w) as (w' & -> & [Hd _ _]). simpl.
  rewrite Hd. destruct (downloads w !! id) as [info|] eqn:E; [|done].
  by destruct (expired now info).
Qed.

(** C5.  The sweep run at time [now] returns normally and removes from the
    registry exactly the entries with [now - createdAt > DOWNLOAD_TTL_MS]:
    every such entry is gone, [fs.unlink] was called on its path and no
    regular file is left there; every other entry is still registered
    unchanged; and a file that is not the path of a removed entry is
    untouched. *)
Theorem sweep_removes_exactly_expired (now : Z) (w : World) :
  ∃ w',
    sweep now w = (Returned tt, w') ∧
    (∀ id, downloads w' !! id =
       match downloads w !! id with
       | Some info =>
           if bool_decide (now - createdAt info > DOWNLOAD_TTL_MS)
           then None else Some info
       | None => None
       end) ∧
    (∀ id info, downloads w !! id = Some info →
       now - createdAt info > DOWNLOAD_TTL_MS →
       downloads w' !! id = None ∧
       JUnlink (path info) ∈ journal w' ∧
       is_file (fs w' !! path info) = false) ∧
    (∀ id info, downloads w !! id = Some info →
       ¬ now - createdAt info > DOWNLOAD_TTL_MS →
       downloads w' !! id = Some info) ∧
    (∀ p, (∀ id info, downloads w !! id = Some info →
             now - createdAt info > DOWNLOAD_TTL_MS → path info ≠ p) →
          fs w' !! p = fs w !! p).
Proof.
  destruct (sweep_run now w) as (w' & Hrun & [Hd Hf (l & Hj & _ & Hin)]).
  exists w'. split; [done|].
  assert (Hlk : ∀ id, downloads w' !! id =
    match downloads w !! id with
    | Some info => if expired now info then None else Some info
    | None => None
    end).
  { intros id. rewrite Hd. destruct (downloads w !! id) as [info|]; [|done].
    by destruct (expired now info). }
  split; [exact Hlk|]. split; [|split].
  - intros id info Hid Hgt. apply expired_gt in Hgt.
    split; [by rewrite Hlk, Hid, Hgt|]. split.
    + rewrite Hj, elem_of_app. right. apply Hin. eauto.
    + rewrite Hf. case_bool_decide as H; [done|].
      destruct (is_file (fs w !! path info)) eqn:F; [|done].
      exfalso. apply H. split; [done|]. eauto.
  - intros id info Hid Hle. rewrite Hlk, Hid.
    destruct (expired now info) eqn:E; [|done].
    by apply expired_gt in E.
  - intros p Hp. rewrite Hf. case_bool_decide as H; [|done].
    destruct H as (_ & id & info & Hid & E & Hpath).
    apply expired_gt in E. by destruct (Hp id info).
Qed.

(** * The download handler *)

Lemma download_cases id w :
  match downloads w !! id with
  | Some info =>
      match fs w !! path info with
      | Some (File size) =>
          download id w = (stream_response (path info) size, w)
      | _ => download id w = (not_found, set_downloads (delete id) w)
      end
  | None => download id w = (not_found, w)
  end.
Proof.
  unfold download. destruct (downloads w !! id) as [info|]; [|done].
  by destruct (fs w !! path info) as [[size|]|].
Qed.

Lemma download_status id w :
  status (download id w).1 = 200 ↔
  ∃ info, downloads w !! id = Some info ∧ is_file (fs w !! path info) = true.
Proof.
  pose proof (download_cases id w) as H.
  destruct (downloads w !! id) as [info|] eqn:E.
  - destruct (fs w !! path info) as [[size|]|] eqn:F; rewrite H; simpl.
    + split; [|done]. intros _. exists info. by rewrite F.
    + split; [done|]. intros (info' & [= <-] & Hf). by rewrite F in Hf.
    + split; [done|]. intros (info' & [= <-] & Hf). by rewrite F in Hf.
  - rewrite H; simpl. split; [done|]. by intros (info' & [=] & _).
Qed.

Lemma download_unchanged id w :
  status (download id w).1 = 200 → (download id w).2 = w.
Proof.
  pose proof (download_cases id w) as H.
  destruct (downloads w !! id) as [info|].
  - destruct (fs w !! path info) as [[size|]|]; by rewrite H.
  - by rewrite H.
Qed.

Lemma delete_absent (m : gmap string Info) id : m !! id = None → delete id m = m.
Proof. apply delete_id. Qed.

(** C6, as stated, fails twice.  An id whose entry is past its TTL and
    has not been visited by a sweep yet is answered 200, not 404: here the
    entry was created at time 1000 and the request comes at any time after
    601000, say 650000, before the sweep that follows.  And a request whose
    id is not valid percent-encoding, such as [GET /download/%zz], is
    answered 500 by the error middleware. *)
Lemma expired_or_undecodable_id_not_404 :
  downloads late_world !! "dl-1000-8f3a" =
    Some {| path := "/tmp/output-1000-8f3a.mp4"; createdAt := 1000 |} ∧
  expired 650000 {| path := "/tmp/output-1000-8f3a.mp4"; createdAt := 1000 |}
    = true ∧
  status (get_download (Decoded "dl-1000-8f3a") late_world).1 = 200 ∧
  status (get_download Malformed late_world).1 = 500.
Proof. vm_compute. done. Qed.

(** C6, amended.  The download handler answers 200 exactly when the
    registry has an entry for [id] and a regular file exists at its path;
    it then streams the stored path and changes nothing.  In every other
    case the answer is the 404 [Not Found] response, the entry (if any) is
    no longer in the registry and the store is untouched.  So for every id
    that Express can decode the status is 200 or 404, and it is 404 for an
    id that has no entry, in particular for one whose entry a sweep has
    removed.  The handler does not read the clock: an entry whose file is
    there is answered 200 at every time, past its TTL too, until a sweep
    removes it.  A request whose id cannot be decoded does not reach the
    handler: the error middleware answers 500 [server_error] and the state
    is unchanged. *)
Theorem download_route_answers (id : string) (w : World) :
  get_download (Decoded id) w = download id w ∧
  (status (download id w).1 = 200 ↔
     ∃ info, downloads w !! id = Some info ∧
             is_file (fs w !! path info) = true) ∧
  (∀ info, downloads w !! id = Some info →
     is_file (fs w !! path info) = true →
     body (download id w).1 = BStream (path info) ∧ (download id w).2 = w) ∧
  (status (download id w).1 ≠ 200 →
     (download id w).1 = not_found ∧
     status (download id w).1 = 404 ∧
     downloads (download id w).2 = delete id (downloads w) ∧
     downloads (download id w).2 !! id = None ∧
     fs (download id w).2 = fs w) ∧
  (status (download id w).1 = 200 ∨ status (download id w).1 = 404) ∧
  (downloads w !! id = None → (download id w).1 = not_found) ∧
  (∀ now info, downloads w !! id = Some info →
     now - createdAt info > DOWNLOAD_TTL_MS →
     (download id (sweep now w).2).1 = not_found) ∧
  (∀ now info size, downloads w !! id = Some info →
     fs w !! path info = Some (File size) →
     serve (OpDownload now id) w = (Some (stream_response (path info) size), w)) ∧
  get_download Malformed w =
    ({| status := 500; headers := []; body := BJson (PError "server_error") |}, w).
Proof.
  split; [done|]. split; [apply download_status|].
  pose proof (download_cases id w) as H.
  split; [|split; [|split; [|split; [|split; [|split]]]]].
  - intros info Hid Hf. rewrite Hid in H.
    destruct (fs w !! path info) as [[size|]|]; try done. by rewrite H.
  - intros Hne. destruct (downloads w !! id) as [info|] eqn:E.
    + destruct (fs w !! path info) as [[size|]|]; rewrite H in *; simpl in *;
        try done; by rewrite lookup_delete_eq.
    + rewrite H; simpl. by rewrite delete_absent.
  - destruct (downloads w !! id) as [info|].
    + destruct (fs w !! path info) as [[size|]|]; rewrite H; simpl; auto.
    + rewrite H; simpl; auto.
  - intros Hid. rewrite Hid in H. by rewrite H.
  - intros now info Hid Hgt.
    pose proof (download_cases id (sweep now w).2) as H'.
    rewrite sweep_lookup, Hid in H'.
    apply expired_gt in Hgt. rewrite Hgt in H'. by rewrite H'.
  - intros now info size Hid Hf. rewrite Hid, Hf in H. simpl. by rewrite H.
  - done.
Qed.

(** C8.  A download answered with 200 leaves the server state as it was:
    the entry is still registered and the file is still in the store, so
    any number of further downloads of the same id, at any times, find the
    same state and get the same answer. *)
Theorem download_is_not_one_shot (id : string) (w : World) (times : list Z) :
  status (download id w).1 = 200 →
  (download id w).2 = w ∧
  serve_all ((λ t, OpDownload t id) <$> times) w = w ∧
  Forall (λ t, (serve (OpDownload t id) w).1 = Some (download id w).1) times.
Proof.
  intros H200. pose proof (download_unchanged id w H200) as Hsame.
  split; [done|]. split.
  - induction times as [|t ts IH]; [done|]. simpl.
    unfold serve_all in *. simpl.
    destruct (download id w) as [r w'] eqn:E. simpl in *. by subst w'.
  - apply Forall_forall. intros t _. simpl. by destruct (download id w).
Qed.

(** * Reachability of a registry entry over time *)

Lemma serve_keeps_absent o w id :
  downloads w !! id = None → registers o ≠ Some id →
  downloads (serve o w).2 !! id = None.
Proof.
  intros Hid Hreg. destruct o as [now|now id'|t_id suffix t_created out|paths]; simpl.
  - by rewrite sweep_lookup, Hid.
  - pose proof (download_cases id' w) as H.
    destruct (download id' w) as [r w'] eqn:E. simpl.
    destruct (downloads w !! id') as [info|].
    + destruct (fs w !! path info) as [[size|]|]; simplify_eq; try done;
        simpl; by rewrite lookup_delete_None; right.
    + by simplify_eq.
  - unfold register; simpl. rewrite lookup_insert_ne; [done|].
    intros Heq. apply Hreg. simpl. by rewrite Heq.
  - by rewrite cleanupFiles_run.
Qed.

Lemma serve_all_keeps_absent ops w id :
  downloads w !! id = None → Forall (λ o, registers o ≠ Some id) ops →
  downloads (serve_all ops w) !! id = None.
Proof.
  revert w. induction ops as [|o ops IH]; intros w Hid Hops; [done|].
  inversion Hops; subst. unfold serve_all; simpl. apply IH; [|done].
  by apply serve_keeps_absent.
Qed.

Lemma download_absent id w :
  downloads w !! id = None → download id w = (not_found, w).
Proof. intros H. pose proof (download_cases id w) as H'. by rewrite H in H'. Qed.

Lemma serve_download now id w :
  (serve (OpDownload now id) w).1 = Some (download id w).1.
Proof. simpl. by destruct (download id w). Qed.

Lemma serve_all_cons o ops w : serve_all (o :: ops) w = serve_all ops (serve o w).2.
Proof. done. Qed.

(** C2, as stated, fails: 49 seconds after the TTL of the entry has elapsed,
    and before the next sweep, the download handler still answers 200. *)
Lemma lookup_past_ttl_still_resolves :
  downloads late_world !! "dl-1000-8f3a" =
    Some {| path := "/tmp/output-1000-8f3a.mp4"; createdAt := 1000 |} ∧
  650000 - 1000 > DOWNLOAD_TTL_MS ∧
  (serve (OpDownload 650000 "dl-1000-8f3a") late_world).1 =
    Some (stream_response "/tmp/output-1000-8f3a.mp4" 4096) ∧
  status (stream_response "/tmp/output-1000-8f3a.mp4" 4096) = 200.
Proof. vm_compute. done. Qed.

(** C2, amended.  The download handler never reads the clock: what bounds
    the life of an entry is the sweep.  Once a sweep has run more than the
    TTL after [createdAt], the id is not resolvable by any later download,
    whatever sweeps, downloads, cleanups and registrations of other ids
    came in between; and a download that finds no regular file at the
    entry's path answers 404 and evicts the entry, so that later downloads
    answer 404 as well. *)
Theorem unreachable_after_sweep_or_file_loss
    (w : World) (id : string) (info : Info) (ops : list op) (now : Z) :
  downloads w !! id = Some info →
  Forall (λ o, registers o ≠ Some id) ops →
  (∀ s, s - createdAt info > DOWNLOAD_TTL_MS →
     (serve (OpDownload now id) (serve_all (OpSweep s :: ops) w)).1
       = Some not_found) ∧
  (is_file (fs w !! path info) = false →
     ∀ t, (serve (OpDownload t id) w).1 = Some not_found ∧
          (serve (OpDownload now id) (serve_all (OpDownload t id :: ops) w)).1
            = Some not_found).
Proof.
  intros Hid Hops. split.
  - intros s Hs. rewrite serve_download, serve_all_cons.
    rewrite download_absent; [done|].
    apply serve_all_keeps_absent; [|done]. simpl.
    rewrite sweep_lookup, Hid. apply expired_gt in Hs. by rewrite Hs.
  - intros Hgone t. rewrite !serve_download, serve_all_cons.
    pose proof (download_cases id w) as H. rewrite Hid in H.
    assert (download id w = (not_found, set_downloads (delete id) w)) as Hd.
    { destruct (fs w !! path info) as [[size|]|]; done. }
    split; [by rewrite Hd|].
    rewrite download_absent; [done|].
    apply serve_all_keeps_absent; [|done]. simpl. rewrite Hd. simpl.
    apply lookup_delete_eq.
Qed.

(** * Identifiers *)

Lemma string_app_assoc (a b c : string) : (a +:+ b) +:+ c = a +:+ (b +:+ c).
Proof.
  induction a as [|x a IH]; [done|].
  change (String x ((a +:+ b) +:+ c) = String x (a +:+ (b +:+ c))).
  by rewrite IH.
Qed.

Lemma string_app_empty (a : string) : a +:+ "" = a.
Proof.
  induction a as [|x a IH]; [done|].
  change (String x (a +:+ "") = String x a). by rewrite IH.
Qed.

Lemma dashless_app a b : dashless a → dashless b → dashless (a +:+ b).
Proof.
  induction a as [|x a IH]; [done|]. intros [??] ?.
  change (dashless (String x (a +:+ b))). split; auto.
Qed.

Lemma pretty_N_char_no_dash x : pretty_N_char x ≠ "-"%char.
Proof. unfold pretty_N_char. by repeat case_match. Qed.

Lemma pretty_N_go_digits x s :
  ∃ d, pretty_N_go x s = d +:+ s ∧ dashless d ∧ ((0 < x)%N → d ≠ "").
Proof.
  revert s. induction (N.lt_wf_0 x) as [x _ IH]; intros s.
  assert (x = 0 ∨ 0 < x)%N as [->|Hx] by lia.
  - exists "". rewrite pretty_N_go_0. split; [done|]. split; [done|]. lia.
  - rewrite pretty_N_go_step by done.
    destruct (IH (x `div` 10)%N (N.div_lt x 10 Hx eq_refl)
                 (String (pretty_N_char (x `mod` 10)) s)) as (d & -> & Hd & _).
    exists (d +:+ String (pretty_N_char (x `mod` 10)) "").
    split; [by rewrite string_app_assoc|]. split.
    + apply dashless_app; [done|]. split; [apply pretty_N_char_no_dash|done].
    + intros _. by destruct d.
Qed.

Lemma pretty_N_digits (x : N) : dashless (pretty x) ∧ pretty x ≠ "".
Proof.
  unfold pretty, pretty_N. case_decide as H; [done|].
  destruct (pretty_N_go_digits x "") as (d & -> & Hd & Hne).
  rewrite string_app_empty.
  split; [done|]. apply Hne. lia.
Qed.

(** The text of an integer is an optional minus sign followed by a
    non-empty run of digits. *)
Lemma pretty_Z_shape (t : Z) :
  ∃ d, dashless d ∧ d ≠ "" ∧ (pretty t = d ∨ pretty t = String "-" d).
Proof.
  destruct t as [|p|p].
  - exists "0". split; [|split; [done|by left]]. simpl. split; done.
  - exists (pretty (Npos p)). destruct (pretty_N_digits (Npos p)).
    split; [done|]. split; [done|]. by left.
  - exists (pretty (Npos p)). destruct (pretty_N_digits (Npos p)).
    split; [done|]. split; [done|]. by right.
Qed.

(** A run of digits is delimited by the dash that follows it. *)
Lemma dashless_delimited d1 d2 r1 r2 :
  dashless d1 → dashless d2 →
  d1 +:+ String "-" r1 = d2 +:+ String "-" r2 → d1 = d2 ∧ r1 = r2.
Proof.
  revert d2. induction d1 as [|c d1 IH]; intros [|c' d2]; simpl.
  - intros _ _ [= ->]. done.
  - intros _ [Hc _] [= <- _]. done.
  - intros [Hc _] _ [= -> _]. done.
  - intros [_ H1] [_ H2] [= -> Heq]. destruct (IH d2 H1 H2 Heq) as [-> ->]. done.
Qed.

Lemma make_id_inj t1 s1 t2 s2 :
  make_id t1 s1 = make_id t2 s2 → t1 = t2 ∧ s1 = s2.
Proof.
  unfold make_id. simpl. intros [= Heq].
  destruct (pretty_Z_shape t1) as (d1 & Hd1 & Hn1 & E1).
  destruct (pretty_Z_shape t2) as (d2 & Hd2 & Hn2 & E2).
  assert (pretty t1 = pretty t2 ∧ s1 = s2) as [Hp ->].
  { destruct E1 as [E1|E1], E2 as [E2|E2]; rewrite E1, E2 in Heq |- *.
    - destruct (dashless_delimited _ _ _ _ Hd1 Hd2 Heq) as [-> ->]. done.
    - destruct d1 as [|c d1]; [done|]. simpl in Heq, Hd1.
      destruct Hd1 as [Hc _]. by injection Heq as -> _.
    - destruct d2 as [|c d2]; [done|]. simpl in Heq, Hd2.
      destruct Hd2 as [Hc _]. by injection Heq as <- _.
    - simpl in Heq. injection Heq as Heq.
      destruct (dashless_delimited _ _ _ _ Hd1 Hd2 Heq) as [-> ->]. done. }
  split; [|done]. by apply (inj pretty).
Qed.

Lemma register_lookup id out t w id' :
  downloads (register id out t w) !! id' =
    if decide (id = id') then Some {| path := out; createdAt := t |}
    else downloads w !! id'.
Proof. unfold register; simpl. apply lookup_insert. Qed.

(** C7, as stated, fails: nothing compares a new id with the live entries,
    so two registrations with the same timestamp and the same random text
    get the same id and the second replaces the first. *)
Lemma same_tick_same_suffix_collide :
  make_id 1000 "8f3a" = "dl-1000-8f3a" ∧
  registers (OpRegister 1000 "8f3a" 1000 "/tmp/output-990-1c.mp4") =
    registers (OpRegister 1000 "8f3a" 1000 "/tmp/output-995-2d.mp4") ∧
  map_to_list (downloads same_tick_twice) =
    [("dl-1000-8f3a", {| path := "/tmp/output-995-2d.mp4"; createdAt := 1000 |})].
Proof. vm_compute. done. Qed.

(** C7, amended.  The id is a function of the timestamp and of the random
    text alone: two registrations get distinct ids exactly when they differ
    in one of the two (within one timestamp tick: exactly when the random
    texts differ).  The entry is stored under that id with the given path
    and the [createdAt] read at registration; it replaces a live entry with
    the same id and leaves every other id alone. *)
Theorem register_ids_distinct_iff
    (w : World) (t1 : Z) (s1 : string) (c1 : Z) (p1 : string)
    (t2 : Z) (s2 : string) (c2 : Z) (p2 : string) :
  (make_id t1 s1 ≠ make_id t2 s2 ↔ t1 ≠ t2 ∨ s1 ≠ s2) ∧
  (make_id t1 s1 ≠ make_id t1 s2 ↔ s1 ≠ s2) ∧
  downloads (serve_all [OpRegister t1 s1 c1 p1; OpRegister t2 s2 c2 p2] w)
    !! make_id t2 s2 = Some {| path := p2; createdAt := c2 |} ∧
  (t1 ≠ t2 ∨ s1 ≠ s2 →
   downloads (serve_all [OpRegister t1 s1 c1 p1; OpRegister t2 s2 c2 p2] w)
     !! make_id t1 s1 = Some {| path := p1; createdAt := c1 |}) ∧
  (∀ id, id ≠ make_id t1 s1 → id ≠ make_id t2 s2 →
   downloads (serve_all [OpRegister t1 s1 c1 p1; OpRegister t2 s2 c2 p2] w)
     !! id = downloads w !! id).
Proof.
  assert (Hiff : ∀ a b x y, make_id a x ≠ make_id b y ↔ a ≠ b ∨ x ≠ y).
  { intros a b x y. split.
    - intros Hne. destruct (decide (a = b)) as [->|]; [|by left].
      right. intros ->. done.
    - intros Hd Heq. apply make_id_inj in Heq as [-> ->]. by destruct Hd. }
  split; [apply Hiff|]. split.
  { rewrite Hiff. split; [by intros [?|?]|by right]. }
  change (serve_all [OpRegister t1 s1 c1 p1; OpRegister t2 s2 c2 p2] w)
    with (register (make_id t2 s2) p2 c2 (register (make_id t1 s1) p1 c1 w)).
  rewrite !register_lookup.
  split; [by rewrite decide_True|]. split.
  - intros Hd. apply Hiff in Hd.
    rewrite decide_False by done. by rewrite decide_True.
  - intros id H1 H2. rewrite !register_lookup.
    by rewrite !decide_False by congruence.
Qed.

(** * One conversion request: responses *)

Arguments cleanupFiles : simpl never.
Arguments cleaned : simpl never.
Arguments register : simpl never.
Arguments make_id : simpl never.
Arguments slice_last : simpl never.
Arguments capped : simpl never.

Lemma in_world_cleanup l j :
  in_world (cleanupFiles l) j =
    (Returned tt, set_world (λ _, cleaned l (world j)) j).
Proof. unfold in_world. by rewrite cleanupFiles_run. Qed.

(** Symbolic execution of a callback on a job given by its fields. *)
Ltac exec :=
  unfold deliver, call,
    RevHeadersSent.handlers, RevSafeRespond.handlers, RevLight.handlers,
    on_data, on_watchdog, on_error, on_close,
    RevHeadersSent.watchdog, RevHeadersSent.error, RevHeadersSent.close,
    RevSafeRespond.watchdog, RevSafeRespond.error, RevSafeRespond.close,
    RevLight.watchdog, RevLight.error, RevLight.close,
    safeRespond, kill, clearTimeout, capture, res_json, bind, gets, modify, ret;
  repeat (simpl; rewrite ?in_world_cleanup).

Ltac by_fields j :=
  destruct j as [w hs wr rs ar et uc]; simpl in *; subst.

Lemma first_wins_headers_sent c : first_wins c (RevHeadersSent.handlers c).
Proof.
  split.
  - intros chunk j []. by_fields j. by exec.
  - intros e j He []. by_fields j.
    destruct e as [chunk| | |code sg t s t']; [done|..].
    + exec. eauto.
    + exec. eauto.
    + exec. destruct (nonzero code); exec; eauto 10.
  - intros e j Hs. by_fields j. destruct uc; [by exec|].
    destruct e as [chunk| | |code sg t s t'].
    + by exec.
    + exec. destruct ar; by exec.
    + by exec.
    + exec. destruct (nonzero code); by exec.
Qed.

Lemma first_wins_safe_respond c : first_wins c (RevSafeRespond.handlers c).
Proof.
  split.
  - intros chunk j []. by_fields j. by exec.
  - intros e j He []. by_fields j.
    destruct e as [chunk| | |code sg t s t']; [done|..].
    + exec. eauto.
    + exec. eauto.
    + exec. destruct (nonzero code); exec; eauto 10.
  - intros e j Hs. by_fields j. destruct uc; [by exec|].
    destruct e as [chunk| | |code sg t s t'].
    + by exec.
    + exec. destruct ar; [|by exec]. exec. destruct rs; by exec.
    + exec. destruct rs; by exec.
    + exec. destruct rs; by exec.
Qed.

Lemma first_wins_light c : first_wins c (RevLight.handlers c).
Proof.
  split.
  - intros chunk j []. by_fields j. by exec.
  - intros e j He []. by_fields j.
    destruct e as [chunk| | |code sg t s t']; [done|..].
    + exec. eauto.
    + exec. eauto.
    + exec. destruct (nonzero code); exec; eauto 10.
  - intros e j Hs. by_fields j. destruct uc; [by exec|].
    destruct e as [chunk| | |code sg t s t'].
    + by exec.
    + exec. destruct ar; [|by exec]. exec. destruct rs; by exec.
    + exec. destruct rs; by exec.
    + exec. destruct rs; by exec.
Qed.

Lemma safe_respond_never_throws c : never_throws (RevSafeRespond.handlers c).
Proof.
  intros e j Hu. by_fields j. destruct e as [chunk| | |code sg t s t'].
  - by exec.
  - exec. destruct ar; [|by exec]. exec. destruct rs, hs; by exec.
  - exec. destruct rs, hs; by exec.
  - exec. destruct rs, hs; exec; try done. destruct (nonzero code); by exec.
Qed.

Lemma light_never_throws c : never_throws (RevLight.handlers c).
Proof.
  intros e j Hu. by_fields j. destruct e as [chunk| | |code sg t s t'].
  - by exec.
  - exec. destruct ar; [|by exec]. exec. destruct rs, hs; by exec.
  - exec. destruct rs, hs; by exec.
  - exec. destruct rs, hs; exec; try done. destruct (nonzero code); by exec.
Qed.

Lemma run_cons h e es j : run h (e :: es) j = run h es (deliver h e j).
Proof. done. Qed.

Lemma run_never_throws h es j :
  never_throws h → uncaught j = None → uncaught (run h es j) = None.
Proof.
  intros Hh. revert j. induction es as [|e es IH]; intros j Hj; [done|].
  rewrite run_cons. apply IH. by apply Hh.
Qed.

Lemma run_settled c h es j :
  first_wins c h → headersSent j = true →
  wire (run h es j) = wire j ∧ headersSent (run h es j) = true.
Proof.
  intros Hh. revert j. induction es as [|e es IH]; intros j Hj; [done|].
  rewrite run_cons. destruct (fw_later c h Hh e j Hj) as [Hw Hs].
  destruct (IH _ Hs) as [-> ->]. done.
Qed.

Lemma run_pending c h es j :
  first_wins c h → pending j →
  match first_terminal es with
  | None => pending (run h es j)
  | Some e => ∃ r, wire (run h es j) = [r] ∧ reports c e r
  end.
Proof.
  intros Hh. revert j. induction es as [|e es IH]; intros j Hj; [done|].
  rewrite run_cons. unfold first_terminal. rewrite filter_cons.
  destruct (decide (terminal e = true)) as [He|He]; simpl.
  - destruct (fw_first c h Hh e j He Hj) as (r & Hw & Hr & Hs).
    exists r. destruct (run_settled c h es _ Hh Hs) as [-> _]. done.
  - destruct e; try done. apply IH. by apply Hh.
Qed.

Lemma revisions_first_wins v c : v ∈ revisions → first_wins c (callbacks v c).
Proof.
  unfold revisions. rewrite !elem_of_cons, elem_of_nil.
  intros [->|[->|[->|[]]]]; simpl.
  - apply first_wins_headers_sent.
  - apply first_wins_safe_respond.
  - apply first_wins_light.
Qed.

Lemma fresh_pending w : pending (fresh w true).
Proof. by split. Qed.

Lemma reports_status c e r : reports c e r → status r = outcome_status e.
Proof.
  destruct e as [chunk| | |code sg t s t']; simpl; try done.
  - by intros ->.
  - by intros ->.
  - destruct (nonzero code); [by intros [? _]|by intros ->].
Qed.

(** In the two revisions that answer through [safeRespond], a conversion
    request gets exactly one response.  A request that lacks a file is
    answered 400 and nothing else can follow.  Otherwise nothing is written
    while no terminal event has arrived, the watchdog being still pending;
    and for every sequence of events the runtime delivers, the responses
    written are exactly the one that the first terminal event stands for:
    504 for the watchdog, 500 for a spawn error or a non-zero exit, 200 for
    exit code 0.  Later events add nothing, and no callback ever raises. *)
Lemma safe_respond_exactly_one_response :
  Forall (λ v, ∀ (r : Request) (w : World) (es : list event),
    uncaught (serve_convert v r w es) = None ∧
    match audio r, image r with
    | Some a, Some i =>
        match first_terminal es with
        | None =>
            wire (serve_convert v r w es) = [] ∧
            armed (serve_convert v r w es) = true
        | Some e =>
            ∃ resp, wire (serve_convert v r w es) = [resp] ∧
                    reports (closure_of r a i) e resp ∧
                    status resp = outcome_status e
        end
    | _, _ =>
        ∃ resp, wire (serve_convert v r w es) = [resp] ∧ status resp = 400
    end) [rev_safe_respond; rev_light].
Proof.
  apply Forall_forall. intros v Hv r w es.
  assert (v ∈ revisions) as Hv'.
  { revert Hv. unfold revisions. rewrite !elem_of_cons. tauto. }
  assert (∀ c, never_throws (callbacks v c)) as Hnt.
  { revert Hv. rewrite !elem_of_cons, elem_of_nil. intros [->|[->|[]]] c.
    - apply safe_respond_never_throws.
    - apply light_never_throws. }
  unfold serve_convert, convert.
  destruct (audio r) as [a|], (image r) as [i|]; simpl; eauto.
  split; [by apply run_never_throws|].
  pose proof (run_pending (closure_of r a i) _ es _
    (revisions_first_wins v _ Hv') (fresh_pending w)) as H.
  destruct (first_terminal es) as [e|].
  - destruct H as (resp & Hw & Hr). exists resp.
    split; [done|]. split; [done|]. by eapply reports_status.
  - destruct H. done.
Qed.

(** * The process: several requests in flight *)

Lemma process_run_exited p evs x : exited p = Some x → process_run p evs = p.
Proof.
  intros Hx. induction evs as [|[i e] evs IH]; [done|].
  unfold process_run in *. simpl. unfold deliver_to at 2. by rewrite Hx.
Qed.

Lemma process_run_cons p i e evs :
  process_run p ((i, e) :: evs) = process_run (deliver_to i e p) evs.
Proof. done. Qed.

Lemma deliver_to_hit p i h j e :
  exited p = None → inflight p !! i = Some (Some h, j) →
  deliver_to i e p =
    {| shared := world (deliver h e (set_world (λ _, shared p) j));
       inflight := <[i := (Some h, deliver h e (set_world (λ _, shared p) j))]>
                     (inflight p);
       exited := uncaught (deliver h e (set_world (λ _, shared p) j)) |}.
Proof. intros Hx Hi. unfold deliver_to. by rewrite Hx, Hi. Qed.

Lemma headers_sent_answer_then_close c j e0 code sg t s t' w1 :
  pending j → e0 = EvWatchdog ∨ e0 = EvError →
  uncaught (deliver (RevHeadersSent.handlers c) e0 j) = None ∧
  uncaught (deliver (RevHeadersSent.handlers c) (EvClose code sg t s t')
              (set_world (λ _, w1) (deliver (RevHeadersSent.handlers c) e0 j)))
    = Some ERR_HTTP_HEADERS_SENT ∧
  status <$> wire (deliver (RevHeadersSent.handlers c) (EvClose code sg t s t')
              (set_world (λ _, w1) (deliver (RevHeadersSent.handlers c) e0 j)))
    = [outcome_status e0].
Proof.
  intros [] [->| ->]; by_fields j; exec; destruct (nonzero code); by exec.
Qed.

(** A process that serves the [safeRespond] revisions is never ended by
    a callback, whatever requests it accepts and whatever events the
    runtime delivers to them. *)
Lemma safe_respond_process_survives v rs w evs :
  v ∈ [rev_safe_respond; rev_light] →
  exited (process_run (foldl (λ p r, accept v r p) (boot w) rs) evs) = None.
Proof.
  intros Hv.
  assert (∀ c, never_throws (callbacks v c)) as Hnt.
  { revert Hv. rewrite !elem_of_cons, elem_of_nil. intros [->|[->|[]]] c.
    - apply safe_respond_never_throws.
    - apply light_never_throws. }
  set (sound := λ p : Process,
    exited p = None ∧
    Forall (λ hj : option Handlers * Job,
      uncaught hj.2 = None ∧
      ∀ h, hj.1 = Some h → never_throws h) (inflight p)).
  assert (Haccept : ∀ r p, sound p → sound (accept v r p)).
  { intros r p [Hx Hall]. unfold accept. rewrite Hx. unfold convert.
    destruct (audio r) as [a|], (image r) as [i|]; split; simpl; try done;
      apply Forall_app; (split; [done|]); repeat constructor; simpl; try done.
    intros h [= <-]. apply Hnt. }
  assert (Hdeliver : ∀ i e p, sound p → sound (deliver_to i e p)).
  { intros i e p [Hx Hall]. unfold deliver_to. rewrite Hx.
    destruct (inflight p !! i) as [[[h|] j]|] eqn:E; try by split.
    pose proof (proj1 (Forall_lookup _ _) Hall i _ E) as [Hu Hh].
    simpl in Hu, Hh.
    assert (uncaught (deliver h e (set_world (λ _, shared p) j)) = None) as Hu'.
    { apply (Hh h eq_refl). done. }
    split; simpl; [done|]. apply Forall_insert; [done|]. by split. }
  assert (Hboot : sound (foldl (λ p r, accept v r p) (boot w) rs)).
  { assert (sound (boot w)) as H0 by (split; [done|constructor]).
    revert H0. generalize (boot w). induction rs as [|r rs IH]; intros p Hp;
      [done|]. simpl. apply IH. by apply Haccept. }
  revert Hboot. generalize (foldl (λ p r, accept v r p) (boot w) rs).
  induction evs as [|[i e] evs IH]; intros p Hp; [by destruct Hp|].
  rewrite process_run_cons. apply IH. by apply Hdeliver.
Qed.

(** C1.  In the first revision (index.js lines 56-149) the claim fails.
    The watchdog and error callbacks answer only when [res.headersSent] is
    false; the close callback answers without that guard.  With two
    requests in flight, when the watchdog or a spawn error has answered the
    first one and its close event follows, [res.json] raises out of the
    close callback and ends the process: the first request has its one
    response, the second request has none and never gets one, whatever the
    runtime would have delivered later. *)
Theorem headers_sent_late_close_starves_others
    (ra rb : Request) (a i a' i' : Upload) (w : World)
    (code : option Z) (sg : option string) (t : Z) (s : string) (t' : Z)
    (later : list (nat * event)) :
  audio ra = Some a → image ra = Some i →
  audio rb = Some a' → image rb = Some i' →
  Forall (λ e0,
    let p := process_run
               (accept rev_headers_sent rb (accept rev_headers_sent ra (boot w)))
               ((0%nat, e0) :: (0%nat, EvClose code sg t s t') :: later) in
    exited p = Some ERR_HTTP_HEADERS_SENT ∧
    status <$> answers 0 p = [outcome_status e0] ∧
    answers 1 p = []) [EvWatchdog; EvError].
Proof.
  intros Ha Hi Ha' Hi'.
  unfold accept, boot. cbn [exited shared inflight]. unfold convert.
  rewrite Ha, Hi, Ha', Hi'.
  cbn [exited shared inflight world fresh app callbacks rev_headers_sent].
  set (ca := closure_of ra a i). set (cb := closure_of rb a' i').
  apply Forall_forall. intros e0 He0.
  assert (e0 = EvWatchdog ∨ e0 = EvError) as He.
  { revert He0. rewrite !elem_of_cons, elem_of_nil. tauto. }
  clear He0. cbv zeta. rewrite !process_run_cons.
  set (p0 := {| shared := w;
                inflight := [(Some (RevHeadersSent.handlers ca), fresh w true);
                             (Some (RevHeadersSent.handlers cb), fresh w true)];
                exited := None |}).
  rewrite (deliver_to_hit p0 0 (RevHeadersSent.handlers ca) (fresh w true) e0)
    by done.
  cbn [shared inflight p0].
  destruct (headers_sent_answer_then_close ca
    (set_world (λ _, w) (fresh w true)) e0 code sg t s t'
    (world (deliver (RevHeadersSent.handlers ca) e0
              (set_world (λ _, w) (fresh w true)))))
    as (U1 & U2 & W2); [by split|done|].
  set (j1 := deliver (RevHeadersSent.handlers ca) e0
               (set_world (λ _, w) (fresh w true))) in *.
  rewrite (deliver_to_hit _ 0 (RevHeadersSent.handlers ca) j1) by done.
  cbn [shared inflight].
  set (j2 := deliver (RevHeadersSent.handlers ca) (EvClose code sg t s t')
               (set_world (λ _, world j1) j1)) in *.
  rewrite (process_run_exited _ later ERR_HTTP_HEADERS_SENT) by done.
  done.
Qed.

Lemma headers_sent_late_close_starves_others_witness :
  audio sample_request = Some {| upath := "/tmp/3f9a61"; usize := 2000000 |} ∧
  image sample_request = Some {| upath := "/tmp/77c1d0"; usize := 500000 |} ∧
  audio sample_request_b = Some {| upath := "/tmp/b04e17"; usize := 3000000 |} ∧
  image sample_request_b = Some {| upath := "/tmp/c9d2aa"; usize := 400000 |} ∧
  exited (process_run (two_in_flight sample_world)
            [(0%nat, EvWatchdog); (0%nat, EvClose None (Some "SIGKILL") 0 "" 0);
             (1%nat, sample_success)])
    = Some ERR_HTTP_HEADERS_SENT ∧
  status <$> answers 0 (process_run (two_in_flight sample_world)
            [(0%nat, EvWatchdog); (0%nat, EvClose None (Some "SIGKILL") 0 "" 0);
             (1%nat, sample_success)])
    = [504] ∧
  answers 1 (process_run (two_in_flight sample_world)
            [(0%nat, EvWatchdog); (0%nat, EvClose None (Some "SIGKILL") 0 "" 0);
             (1%nat, sample_success)])
    = [].
Proof.
  assert (H1 : audio sample_request
               = Some {| upath := "/tmp/3f9a61"; usize := 2000000 |})
    by reflexivity.
  assert (H2 : image sample_request
               = Some {| upath := "/tmp/77c1d0"; usize := 500000 |})
    by reflexivity.
  assert (H3 : audio sample_request_b
               = Some {| upath := "/tmp/b04e17"; usize := 3000000 |})
    by reflexivity.
  assert (H4 : image sample_request_b
               = Some {| upath := "/tmp/c9d2aa"; usize := 400000 |})
    by reflexivity.
  repeat (split; [assumption|]).
  exact (Forall_inv (headers_sent_late_close_starves_others
    sample_request sample_request_b _ _ _ _ sample_world
    None (Some "SIGKILL") 0 "" 0 [(1%nat, sample_success)] H1 H2 H3 H4)).
Defined.

(** In the revision that guards on [res.headersSent] only, the close
    callback answers without a guard: when the watchdog has already
    answered, the close event that follows the SIGKILL makes [res.json]
    raise out of the callback.  The one response on the wire is still the
    504. *)
Example headers_sent_late_close_raises :
  uncaught (serve_convert rev_headers_sent sample_request sample_world
              [EvWatchdog; EvClose None (Some "SIGKILL") 0 "" 0])
    = Some ERR_HTTP_HEADERS_SENT ∧
  status <$> wire (serve_convert rev_headers_sent sample_request sample_world
                     [EvWatchdog; EvClose None (Some "SIGKILL") 0 "" 0])
    = [504].
Proof. vm_compute. done. Qed.

(** * One conversion request: files *)

Lemma cleaned_fs_lookup l w p :
  fs (cleaned l w) !! p =
    if bool_decide (p ∈ truthy_paths l ∧ is_file (fs w !! p) = true)
    then None else fs w !! p.
Proof. unfold cleaned; simpl. apply foldl_remove_file_lookup. Qed.

Lemma cleaned_downloads l w : downloads (cleaned l w) = downloads w.
Proof. done. Qed.

Lemma cleaned_journal l w :
  journal (cleaned l w) = journal w ++ (JUnlink <$> truthy_paths l).
Proof. done. Qed.

Lemma register_fs id out t w : fs (register id out t w) = fs w.
Proof. done. Qed.

Lemma register_journal id out t w : journal (register id out t w) = journal w.
Proof. done. Qed.

Lemma truthy_paths_elem s l : s ≠ "" → JString s ∈ l → s ∈ truthy_paths l.
Proof.
  intros Hs. induction l as [|p l IH]; [by intros ?%elem_of_nil|].
  rewrite elem_of_cons. intros [<-|Hin]; simpl.
  - rewrite bool_decide_eq_false_2 by done. by left.
  - destruct p as [| |s']; auto. case_bool_decide; auto. right. auto.
Qed.

Lemma cleaned_absent l w s :
  s ≠ "" → JString s ∈ l → is_file (fs (cleaned l w) !! s) = false.
Proof.
  intros Hs Hin. rewrite cleaned_fs_lookup. case_bool_decide as H; [done|].
  destruct (is_file (fs w !! s)) eqn:F; [|done].
  exfalso. apply H. split; [|done]. by apply truthy_paths_elem.
Qed.

Lemma cleaned_only_deletes l w p :
  is_file (fs (cleaned l w) !! p) = true → is_file (fs w !! p) = true.
Proof. rewrite cleaned_fs_lookup. by case_bool_decide. Qed.

Lemma cleaned_keeps_absent l w p :
  is_file (fs w !! p) = false → is_file (fs (cleaned l w) !! p) = false.
Proof.
  intros H. destruct (is_file (fs (cleaned l w) !! p)) eqn:E; [|done].
  apply cleaned_only_deletes in E. congruence.
Qed.

Lemma cleaned_other l w p :
  (∀ s, JString s ∈ l → s ≠ p) → fs (cleaned l w) !! p = fs w !! p.
Proof.
  intros Hne. rewrite cleaned_fs_lookup. case_bool_decide as H; [|done].
  destruct H as [Hin _]. exfalso. revert Hin Hne. clear.
  induction l as [|q l IH]; simpl; [by intros ?%elem_of_nil|].
  intros Hin Hne.
  assert (∀ s, JString s ∈ l → s ≠ p) as Hl.
  { intros s Hs. apply Hne. by right. }
  destruct q as [| |s]; auto. case_bool_decide; auto.
  apply elem_of_cons in Hin as [->|Hin]; auto.
  by apply (Hne s); [left|].
Qed.

Opaque cleaned register.





Ltac gone :=
  repeat first
    [ rewrite register_fs
    | apply cleaned_absent;
        [assumption | solve [unfold all_three, inputs; repeat constructor]]
    | apply cleaned_keeps_absent ].



Lemma nonzero_zero : nonzero (Some 0) = false.
Proof. done. Qed.

(** The world right after the close callback on exit code 0. *)
Lemma success_world v c j sg t s t' :
  v ∈ revisions → pending j →
  outPath c ≠ audioPath c → outPath c ≠ imagePath c →
  fs (world (deliver (callbacks v c) (EvClose (Some 0) sg t s t') j))
    !! outPath c = fs (world j) !! outPath c ∧
  downloads (world (deliver (callbacks v c) (EvClose (Some 0) sg t s t') j))
    !! make_id t s = Some {| path := outPath c; createdAt := t' |}.
Proof.
  assert (Hin : ∀ x, outPath c ≠ audioPath c → outPath c ≠ imagePath c →
                     JString x ∈ inputs c → x ≠ outPath c).
  { intros x H1 H2. unfold inputs. rewrite !elem_of_cons, elem_of_nil.
    intros [[= ->]|[[= ->]|[]]]; congruence. }
  unfold revisions. rewrite !elem_of_cons, elem_of_nil.
  intros [->|[->|[->|[]]]] [] H1 H2; by_fields j; exec;
    rewrite ?nonzero_zero; exec;
    rewrite register_fs, register_lookup, decide_True by done;
    (split; [|done]); rewrite cleaned_other by auto; done.
Qed.



(** * The success response *)

(** C9.  In each of the three revisions a successful conversion, that is
    a request with both files whose first terminal event is ffmpeg's exit
    with code 0, is answered with exactly one response: status 200 with the
    download URL, the id and [expires_in_seconds = 600], the whole TTL in
    seconds, whatever the request, the server state, the registration time
    [t'] of the entry, the stderr output before and the events after.  And
    no run of any request puts a 200 on the wire with another value. *)
Theorem expires_in_seconds_is_ttl
    (v : Revision) (r : Request) (a i : Upload) (w : World) (es : list event)
    (sg : option string) (t : Z) (s : string) (t' : Z) :
  v ∈ revisions →
  audio r = Some a → image r = Some i →
  first_terminal es = Some (EvClose (Some 0) sg t s t') →
  DOWNLOAD_TTL_MS / 1000 = 600 ∧
  wire (serve_convert v r w es) =
    [{| status := 200; headers := [];
        body := BJson (PSuccess (download_url (closure_of r a i) (make_id t s))
                                (make_id t s) 600) |}] ∧
  (∀ (r' : Request) (w' : World) (es' : list event) (resp : Response),
     resp ∈ wire (serve_convert v r' w' es') → status resp = 200 →
     ∃ url id, body resp = BJson (PSuccess url id 600)).
Proof.
  intros Hv Ha Hi Hft. split; [done|]. split.
  - unfold serve_convert, convert. rewrite Ha, Hi.
    pose proof (run_pending (closure_of r a i) _ es _
      (revisions_first_wins v _ Hv) (fresh_pending w)) as H.
    rewrite Hft in H. destruct H as (r0 & Hw & Hr). simpl in Hr.
    by rewrite Hw, Hr.
  - intros r' w' es' resp Hin H200.
    unfold serve_convert, convert in Hin.
    destruct (audio r') as [a'|], (image r') as [i'|]; simpl in Hin;
      try (apply list_elem_of_singleton in Hin; by subst resp).
    pose proof (run_pending (closure_of r' a' i') _ es' _
      (revisions_first_wins v _ Hv) (fresh_pending w')) as H.
    destruct (first_terminal es') as [e|].
    + destruct H as (r0 & Hw & Hr). rewrite Hw in Hin.
      apply list_elem_of_singleton in Hin. subst r0.
      destruct e as [chunk| | |code sg0 t0 s0 t0']; simpl in Hr; try done;
        try (by subst resp).
      destruct (nonzero code).
      * destruct Hr as [Hs _]. congruence.
      * subst resp. simpl. eauto.
    + destruct H as [_ _ _ Hw _]. rewrite Hw in Hin. by apply elem_of_nil in Hin.
Qed.

(** * Order of deletions and process exit *)

Lemma unlinks_follow_mono P l :
  unlinks_follow P false l = true → unlinks_follow P true l = true.
Proof.
  assert (∀ l b, unlinks_follow P b l = true → unlinks_follow P true l = true) as H.
  { clear l. induction l as [|x l IH]; intros b; [done|]. simpl.
    intros [_ H]%andb_prop. destruct (is_unlink x); simpl; eauto. }
  apply H.
Qed.

Lemma unlinks_follow_app P b l1 l2 :
  unlinks_follow P b l1 = true → unlinks_follow P false l2 = true →
  unlinks_follow P b (l1 ++ l2) = true.
Proof.
  revert b. induction l1 as [|x l1 IH]; intros b; simpl.
  - intros _ H. destruct b; [by apply unlinks_follow_mono|done].
  - intros [H1 H2]%andb_prop H. rewrite H1. simpl. by apply IH.
Qed.

Lemma unlinks_follow_unlinks P (ps : list string) :
  unlinks_follow P true (JUnlink <$> ps) = true.
Proof.
  induction ps as [|p ps IH]; [done|]. simpl. exact IH.
Qed.

(** The scan says what it is meant to say. *)
Lemma unlinks_follow_spec P b l :
  unlinks_follow P b l = true ↔
  ∀ l1 p l2, l = l1 ++ JUnlink p :: l2 →
             b = true ∨ ∃ x, x ∈ l1 ∧ P x = true.
Proof.
  revert b. induction l as [|x l IH]; intros b; simpl.
  - split; [|done]. intros _ [|??] ?? [=].
  - rewrite andb_true_iff, IH. split.
    + intros [Hx Hl] [|y l1] p l2 [= -> Heq].
      * by left.
      * subst l. destruct (Hl l1 p l2 eq_refl) as [Hb|(z & Hz & HP)].
        -- apply orb_true_iff in Hb as [?|?]; [by left|].
           right. exists y. split; [by left|done].
        -- right. exists z. split; [by right|done].
    + intros H. split.
      * destruct x as [e| |p|st]; try done.
        destruct (H [] p l eq_refl) as [?|(z & Hz & _)]; [done|].
        by apply elem_of_nil in Hz.
      * intros l1 p l2 ->.
        destruct (H (x :: l1) p l2 eq_refl) as [->|(z & Hz & HP)]; [by left|].
        apply elem_of_cons in Hz as [->|Hz].
        -- left. rewrite HP. by destruct b.
        -- right. eauto.
Qed.

Lemma unlinks_follow_seen_app P l1 l2 :
  unlinks_follow P true (l1 ++ l2) =
    unlinks_follow P true l1 && unlinks_follow P true l2.
Proof.
  induction l1 as [|x l1 IH]; [done|]. simpl. rewrite IH.
  by destruct (is_unlink x).
Qed.

Opaque truthy_paths.

Ltac scan_journal :=
  rewrite ?cleaned_journal, ?register_journal; simpl;
  rewrite ?cleaned_journal, ?register_journal; simpl;
  rewrite <- ?app_assoc; simpl;
  first [ exists []; by rewrite app_nil_r
        | eexists; split; [reflexivity|];
          split; [|intros ?]; try done; simpl;
          rewrite ?unlinks_follow_seen_app, ?unlinks_follow_unlinks; done ].

(** What a delivery appends to the journal: every deletion in it comes
    after the kill, the error event or the close event of that same
    delivery, and after the close event when the event is a natural one. *)
Lemma deliver_journal v c e j :
  v ∈ revisions →
  ∃ chunk,
    journal (world (deliver (callbacks v c) e j)) = journal (world j) ++ chunk ∧
    unlinks_follow job_stopped false chunk = true ∧
    (natural e = true → unlinks_follow exit_confirmed false chunk = true).
Proof.
  unfold revisions. rewrite !elem_of_cons, elem_of_nil.
  intros [->|[->|[->|[]]]]; by_fields j;
    (destruct uc; [exec; scan_journal|]);
    destruct e as [chunk| | |code sg t s t']; exec;
    try destruct ar; try destruct rs; try destruct hs; exec;
    try destruct (nonzero code); exec; scan_journal.
Qed.

Lemma run_journal v c es j :
  v ∈ revisions →
  ∃ chunk,
    journal (world (run (callbacks v c) es j)) = journal (world j) ++ chunk ∧
    unlinks_follow job_stopped false chunk = true ∧
    (forallb natural es = true → unlinks_follow exit_confirmed false chunk = true).
Proof.
  intros Hv. revert j. induction es as [|e es IH]; intros j.
  - exists []. by rewrite app_nil_r.
  - rewrite run_cons.
    destruct (deliver_journal v c e j Hv) as (k1 & E1 & S1 & N1).
    destruct (IH (deliver (callbacks v c) e j)) as (k2 & E2 & S2 & N2).
    exists (k1 ++ k2). rewrite E2, E1, app_assoc. split; [done|]. split.
    + by apply unlinks_follow_app.
    + simpl. intros [??]%andb_prop. apply unlinks_follow_app; auto.
Qed.

(** C3, as stated, fails in every revision that has the watchdog: its
    callback sends SIGKILL and deletes the three files at once; the
    deletions are journalled before any close event. *)
Lemma watchdog_deletes_before_exit :
  Forall (λ v,
    job_journal v sample_request sample_world [EvWatchdog] =
      [JEvent EvWatchdog; JKill;
       JUnlink "/tmp/3f9a61"; JUnlink "/tmp/77c1d0";
       JUnlink "/tmp/output-1700000000000-8f3a.mp4";
       JSend 504] ∧
    unlinks_follow exit_confirmed false
      (job_journal v sample_request sample_world [EvWatchdog]) = false)
    revisions.
Proof. repeat constructor; vm_compute; reflexivity. Qed.

(** C3, amended.  In each of the three revisions, every deletion a request
    performs comes after the close event of its process, after its error
    event, or after the SIGKILL that the watchdog has just sent; the
    watchdog does not wait for the exit.  When the process ends by itself
    (the only events are stderr output and close), every deletion, of the
    inputs and of the output alike, comes after the close event. *)
Theorem deletions_follow_exit_or_kill
    (v : Revision) (r : Request) (w : World) (es : list event) :
  v ∈ revisions →
  unlinks_follow job_stopped false (job_journal v r w es) = true ∧
  (forallb natural es = true →
   unlinks_follow exit_confirmed false (job_journal v r w es) = true).
Proof.
  intros Hv. unfold job_journal, serve_convert, convert.
  destruct (audio r) as [a|], (image r) as [i|]; simpl;
    try (rewrite drop_app_length; done).
  destruct (run_journal v (closure_of r a i) es (fresh w true) Hv)
    as (k & -> & S & N).
  simpl. rewrite drop_app_length. done.
Qed.

(** * Instances *)

Lemma unreachable_after_sweep_or_file_loss_witness :
  downloads late_world !! "dl-1000-8f3a" =
    Some {| path := "/tmp/output-1000-8f3a.mp4"; createdAt := 1000 |} ∧
  Forall (λ o, registers o ≠ Some "dl-1000-8f3a") late_ops ∧
  (∀ s, s - 1000 > DOWNLOAD_TTL_MS →
     (serve (OpDownload 800000 "dl-1000-8f3a")
            (serve_all (OpSweep s :: late_ops) late_world)).1 = Some not_found).
Proof.
  assert (H1 : downloads late_world !! "dl-1000-8f3a" =
    Some {| path := "/tmp/output-1000-8f3a.mp4"; createdAt := 1000 |})
    by (vm_compute; reflexivity).
  assert (H2 : Forall (λ o, registers o ≠ Some "dl-1000-8f3a") late_ops)
    by (repeat constructor; vm_compute; discriminate).
  split; [exact H1|]. split; [exact H2|].
  exact (proj1 (unreachable_after_sweep_or_file_loss late_world "dl-1000-8f3a"
    {| path := "/tmp/output-1000-8f3a.mp4"; createdAt := 1000 |}
    late_ops 800000 H1 H2)).
Defined.

Lemma deletions_follow_exit_or_kill_witness :
  rev_headers_sent ∈ revisions ∧
  unlinks_follow job_stopped false
    (job_journal rev_headers_sent sample_request sample_world
       [EvData "frame=1"; EvWatchdog; sample_success]) = true.
Proof.
  assert (H : rev_headers_sent ∈ revisions) by constructor.
  split; [exact H|].
  exact (proj1 (deletions_follow_exit_or_kill rev_headers_sent sample_request
    sample_world [EvData "frame=1"; EvWatchdog; sample_success] H)).
Defined.


Lemma download_is_not_one_shot_witness :
  status (download "dl-1000-8f3a" late_world).1 = 200 ∧
  (download "dl-1000-8f3a" late_world).2 = late_world ∧
  serve_all ((λ t, OpDownload t "dl-1000-8f3a") <$> [650000; 650001; 660999])
    late_world = late_world.
Proof.
  assert (H : status (download "dl-1000-8f3a" late_world).1 = 200)
    by (vm_compute; reflexivity).
  split; [exact H|].
  destruct (download_is_not_one_shot "dl-1000-8f3a" late_world
    [650000; 650001; 660999] H) as (Ha & Hb & _).
  split; [exact Ha|exact Hb].
Defined.

Lemma expires_in_seconds_is_ttl_witness :
  (rev_headers_sent ∈ revisions ∧ rev_safe_respond ∈ revisions ∧
   rev_light ∈ revisions) ∧
  audio sample_request = Some {| upath := "/tmp/3f9a61"; usize := 2000000 |} ∧
  image sample_request = Some {| upath := "/tmp/77c1d0"; usize := 500000 |} ∧
  first_terminal [EvData "frame=1"; sample_success; EvWatchdog]
    = Some (EvClose (Some 0) None 1700000030000 "c41b" 1700000030001) ∧
  wire (serve_convert rev_headers_sent sample_request sample_world
          [EvData "frame=1"; sample_success; EvWatchdog])
    = [sample_success_response] ∧
  wire (serve_convert rev_safe_respond sample_request sample_world
          [EvData "frame=1"; sample_success; EvWatchdog])
    = [sample_success_response] ∧
  wire (serve_convert rev_light sample_request sample_world
          [EvData "frame=1"; sample_success; EvWatchdog])
    = [sample_success_response].
Proof.
  assert (V1 : rev_headers_sent ∈ revisions) by repeat constructor.
  assert (V2 : rev_safe_respond ∈ revisions) by repeat constructor.
  assert (V3 : rev_light ∈ revisions) by repeat constructor.
  assert (Ha : audio sample_request
               = Some {| upath := "/tmp/3f9a61"; usize := 2000000 |})
    by reflexivity.
  assert (Hi : image sample_request
               = Some {| upath := "/tmp/77c1d0"; usize := 500000 |})
    by reflexivity.
  assert (Hf : first_terminal [EvData "frame=1"; sample_success; EvWatchdog]
               = Some (EvClose (Some 0) None 1700000030000 "c41b" 1700000030001))
    by reflexivity.
  split; [by repeat split|]. repeat (split; [assumption|]).
  split; [|split].
  - exact (proj1 (proj2 (expires_in_seconds_is_ttl rev_headers_sent
      sample_request _ _ sample_world _ _ _ _ _ V1 Ha Hi Hf))).
  - exact (proj1 (proj2 (expires_in_seconds_is_ttl rev_safe_respond
      sample_request _ _ sample_world _ _ _ _ _ V2 Ha Hi Hf))).
  - exact (proj1 (proj2 (expires_in_seconds_is_ttl rev_light
      sample_request _ _ sample_world _ _ _ _ _ V3 Ha Hi Hf))).
Defined.

(** * The stderr tail *)

Lemma slen_app (a b : string) :
  String.length (a +:+ b) = (String.length a + String.length b)%nat.
Proof.
  induction a as [|x a IH]; [done|].
  change (S (String.length (a +:+ b)) = S (String.length a + String.length b)).
  by rewrite IH.
Qed.

Lemma sdrop_empty n : sdrop n "" = "".
Proof. by destruct n. Qed.

Lemma slen_sdrop n s : String.length (sdrop n s) = (String.length s - n)%nat.
Proof.
  revert s. induction n as [|n IH]; intros [|x s]; simpl; try done; lia.
Qed.

Lemma sdrop_app n s c :
  (n <= String.length s)%nat → sdrop n (s +:+ c) = sdrop n s +:+ c.
Proof.
  revert s. induction n as [|n IH]; intros [|x s]; simpl; try done; try lia.
  intros H. change (sdrop n (s +:+ c) = sdrop n s +:+ c). apply IH. lia.
Qed.

Lemma sdrop_sdrop n m s : sdrop n (sdrop m s) = sdrop (m + n) s.
Proof.
  revert s. induction m as [|m IH]; intros s; [done|].
  destruct s as [|x s]; simpl; [apply sdrop_empty|apply IH].
Qed.

Lemma substring_whole m s : (String.length s <= m)%nat → substring 0 m s = s.
Proof.
  revert m. induction s as [|x s IH]; intros [|m]; simpl; try done; try lia.
  intros H. f_equal. apply IH. lia.
Qed.

Lemma substring_sdrop n m s :
  (String.length s - n <= m)%nat → substring n m s = sdrop n s.
Proof.
  revert s. induction n as [|n IH]; intros s H.
  - apply substring_whole. simpl. lia.
  - destruct s as [|x s]; [by destruct m|]. simpl. apply IH. simpl in H. lia.
Qed.

Lemma slice_last_last_chars k s : slice_last k s = last_chars k s.
Proof.
  unfold slice_last, last_chars.
  replace (N.to_nat (N.of_nat (String.length s) - k))
    with (String.length s - N.to_nat k)%nat by lia.
  apply substring_sdrop. lia.
Qed.

Lemma capped_last_chars k s : capped k s = last_chars k s.
Proof.
  unfold capped. destruct (N.ltb_spec k (N.of_nat (String.length s))) as [H|H].
  - apply slice_last_last_chars.
  - unfold last_chars.
    by replace (String.length s - N.to_nat k)%nat with 0%nat by lia.
Qed.

Lemma slen_last_chars k s :
  (String.length (last_chars k s) <= N.to_nat k)%nat.
Proof. unfold last_chars. rewrite slen_sdrop. lia. Qed.

Lemma last_chars_short k s :
  (String.length s <= N.to_nat k)%nat → last_chars k s = s.
Proof.
  intros H. unfold last_chars.
  by replace (String.length s - N.to_nat k)%nat with 0%nat by lia.
Qed.

Lemma last_chars_app k t c :
  last_chars k (last_chars k t +:+ c) = last_chars k (t +:+ c).
Proof.
  destruct (decide (String.length t <= N.to_nat k)%nat) as [H|H].
  - by rewrite (last_chars_short k t).
  - unfold last_chars. rewrite !slen_app, slen_sdrop.
    replace (String.length t - (String.length t - N.to_nat k)
             + String.length c - N.to_nat k)%nat
      with (String.length c) by lia.
    replace (String.length t + String.length c - N.to_nat k)%nat
      with ((String.length t - N.to_nat k) + String.length c)%nat by lia.
    rewrite <- sdrop_sdrop. f_equal. symmetry. apply sdrop_app. lia.
Qed.

Lemma last_chars_last_chars k1 k2 s :
  (k1 <= k2)%N → last_chars k1 (last_chars k2 s) = last_chars k1 s.
Proof.
  intros H. unfold last_chars. rewrite slen_sdrop, sdrop_sdrop. f_equal. lia.
Qed.

Lemma chunks_text_cons c cs : chunks_text (c :: cs) = c +:+ chunks_text cs.
Proof. done. Qed.

(** One stderr chunk delivered to a callback that captures with a cap. *)
Lemma deliver_data_capture h cap chunk j :
  on_data h = capture cap → uncaught j = None →
  deliver h (EvData chunk) j =
    set_errTail (λ t, capped cap (t +:+ chunk))
      (set_world (record (JEvent (EvData chunk))) j).
Proof.
  intros Hh Hu. unfold deliver, call. rewrite Hu, Hh. done.
Qed.

Lemma run_data_capture h cap chunks j :
  on_data h = capture cap → uncaught j = None →
  (String.length (errTail j) <= N.to_nat cap)%nat →
  errTail (run h (EvData <$> chunks) j)
    = last_chars cap (errTail j +:+ chunks_text chunks) ∧
  fs (world (run h (EvData <$> chunks) j)) = fs (world j) ∧
  downloads (world (run h (EvData <$> chunks) j)) = downloads (world j).
Proof.
  intros Hh. revert j. induction chunks as [|c cs IH]; intros j Hu Hlen.
  - simpl. rewrite string_app_empty, last_chars_short; done.
  - rewrite fmap_cons, run_cons, (deliver_data_capture h cap c j Hh Hu).
    destruct (IH (set_errTail (λ t, capped cap (t +:+ c))
                   (set_world (record (JEvent (EvData c))) j)))
      as (E & F & D); [done|simpl; rewrite capped_last_chars;
                       apply slen_last_chars|].
    rewrite E, F, D. simpl.
    rewrite capped_last_chars, last_chars_app, string_app_assoc. done.
Qed.

Lemma run_app h es1 es2 j : run h (es1 ++ es2) j = run h es2 (run h es1 j).
Proof. unfold run. apply foldl_app. Qed.

Lemma run_data_pending c h chunks j :
  first_wins c h → pending j → pending (run h (EvData <$> chunks) j).
Proof.
  intros Hh. revert j. induction chunks as [|x cs IH]; intros j Hj; [done|].
  rewrite fmap_cons, run_cons. apply IH. by apply Hh.
Qed.

(** X1.  The stderr listener keeps the most recent output of ffmpeg and
    nothing more: after any number of chunks of ASCII text, [errTail] is
    the last 6000 characters (12000 in the [safeRespond] revision) of
    everything written so far, it is never longer than the cap, and the
    listener has not answered, touched a file or touched the registry.
    (For output that is not ASCII the code counts UTF-16 code units of the
    decoded chunks, which the strings of this development do not
    represent.) *)
Theorem stderr_tail_is_last_chars (c : Closure) (w : World) (chunks : list string) :
  forallb ascii_text chunks = true →
  (errTail (run (RevHeadersSent.handlers c) (EvData <$> chunks) (fresh w true))
     = last_chars 6000 (chunks_text chunks) ∧
   errTail (run (RevSafeRespond.handlers c) (EvData <$> chunks) (fresh w true))
     = last_chars 12000 (chunks_text chunks)) ∧
  ((N.of_nat (String.length (errTail
      (run (RevHeadersSent.handlers c) (EvData <$> chunks) (fresh w true))))
      <= 6000)%N ∧
   (N.of_nat (String.length (errTail
      (run (RevSafeRespond.handlers c) (EvData <$> chunks) (fresh w true))))
      <= 12000)%N) ∧
  Forall (λ h,
    pending (run h (EvData <$> chunks) (fresh w true)) ∧
    fs (world (run h (EvData <$> chunks) (fresh w true))) = fs w ∧
    downloads (world (run h (EvData <$> chunks) (fresh w true))) = downloads w)
    [RevHeadersSent.handlers c; RevSafeRespond.handlers c].
Proof.
  intros _.
  destruct (run_data_capture (RevHeadersSent.handlers c) 6000 chunks
    (fresh w true) eq_refl eq_refl) as (E1 & F1 & D1); [apply Nat.le_0_l|].
  destruct (run_data_capture (RevSafeRespond.handlers c) 12000 chunks
    (fresh w true) eq_refl eq_refl) as (E2 & F2 & D2); [apply Nat.le_0_l|].
  change (errTail (fresh w true) +:+ chunks_text chunks)
    with (chunks_text chunks) in E1, E2.
  split; [by split|]. split.
  - rewrite E1, E2. split.
    + pose proof (slen_last_chars 6000 (chunks_text chunks)). lia.
    + pose proof (slen_last_chars 12000 (chunks_text chunks)). lia.
  - pose proof (first_wins_headers_sent c) as W1.
    pose proof (first_wins_safe_respond c) as W2.
    pose proof (fresh_pending w) as P.
    repeat constructor; try done; by eapply run_data_pending.
Qed.

Lemma nonzero_true code : code ≠ Some 0 → nonzero code = true.
Proof. intros H. unfold nonzero. by rewrite bool_decide_eq_false_2. Qed.

(** The response of each revision to a non-zero exit that comes first. *)
Lemma close_failure_wire c j code sg t s t' :
  pending j → nonzero code = true →
  (wire (deliver (RevHeadersSent.handlers c) (EvClose code sg t s t') j)
     = [{| status := 500; headers := [];
           body := BJson (PFailed code sg (Some (errTail j))) |}] ∧
   headersSent (deliver (RevHeadersSent.handlers c) (EvClose code sg t s t') j)
     = true) ∧
  (wire (deliver (RevSafeRespond.handlers c) (EvClose code sg t s t') j)
     = [{| status := 500; headers := [];
           body := BJson (PFailed code sg
                            (Some (slice_last 4000 (errTail j)))) |}] ∧
   headersSent (deliver (RevSafeRespond.handlers c) (EvClose code sg t s t') j)
     = true) ∧
  (wire (deliver (RevLight.handlers c) (EvClose code sg t s t') j)
     = [{| status := 500; headers := [];
           body := BJson (PFailed code sg None) |}] ∧
   headersSent (deliver (RevLight.handlers c) (EvClose code sg t s t') j)
     = true).
Proof.
  intros [] Hnz. by_fields j. repeat split; exec; rewrite Hnz; by exec.
Qed.

(** X2.  When ffmpeg exits with a non-zero code (or dies of a signal)
    before anything else ends the job, having written ASCII text to
    stderr, the single 500 response carries the code, the signal and the
    end of that text: its last 6000 characters in the first revision, its
    last 4000 in the [safeRespond] revision (the 12000 kept, cut again by
    [slice(-4000)]), and no stderr at all in the revision that attaches no
    stderr listener. *)
Theorem failure_details_are_stderr_tail
    (r : Request) (a i : Upload) (w : World) (chunks : list string)
    (code : option Z) (sg : option string) (t : Z) (s : string) (t' : Z)
    (rest : list event) :
  audio r = Some a → image r = Some i → code ≠ Some 0 →
  forallb ascii_text chunks = true →
  wire (serve_convert rev_headers_sent r w
          ((EvData <$> chunks) ++ EvClose code sg t s t' :: rest))
    = [{| status := 500; headers := [];
          body := BJson (PFailed code sg
                    (Some (last_chars 6000 (chunks_text chunks)))) |}] ∧
  wire (serve_convert rev_safe_respond r w
          ((EvData <$> chunks) ++ EvClose code sg t s t' :: rest))
    = [{| status := 500; headers := [];
          body := BJson (PFailed code sg
                    (Some (last_chars 4000 (chunks_text chunks)))) |}] ∧
  wire (serve_convert rev_light r w
          ((EvData <$> chunks) ++ EvClose code sg t s t' :: rest))
    = [{| status := 500; headers := [];
          body := BJson (PFailed code sg None) |}].
Proof.
  intros Ha Hi Hcode _. apply nonzero_true in Hcode.
  unfold serve_convert, convert. rewrite Ha, Hi. simpl callbacks.
  set (c := closure_of r a i).
  rewrite !run_app, !run_cons.
  pose proof (fresh_pending w) as P0.
  pose proof (run_data_pending c _ chunks _ (first_wins_headers_sent c) P0) as P1.
  pose proof (run_data_pending c _ chunks _ (first_wins_safe_respond c) P0) as P2.
  pose proof (run_data_pending c _ chunks _ (first_wins_light c) P0) as P3.
  destruct (close_failure_wire c _ code sg t s t' P1 Hcode) as ((W1 & S1) & _ & _).
  destruct (close_failure_wire c _ code sg t s t' P2 Hcode) as (_ & (W2 & S2) & _).
  destruct (close_failure_wire c _ code sg t s t' P3 Hcode) as (_ & _ & (W3 & S3)).
  destruct (run_settled c _ rest _ (first_wins_headers_sent c) S1) as [-> _].
  destruct (run_settled c _ rest _ (first_wins_safe_respond c) S2) as [-> _].
  destruct (run_settled c _ rest _ (first_wins_light c) S3) as [-> _].
  rewrite W1, W2, W3.
  destruct (run_data_capture (RevHeadersSent.handlers c) 6000 chunks
    (fresh w true) eq_refl eq_refl) as (E1 & _); [apply Nat.le_0_l|].
  destruct (run_data_capture (RevSafeRespond.handlers c) 12000 chunks
    (fresh w true) eq_refl eq_refl) as (E2 & _); [apply Nat.le_0_l|].
  change (errTail (fresh w true) +:+ chunks_text chunks)
    with (chunks_text chunks) in E1, E2.
  rewrite E1, E2, slice_last_last_chars, last_chars_last_chars by lia.
  done.
Qed.

(** * When the first revision raises *)

Lemma run_crashed h es j x : uncaught j = Some x → run h es j = j.
Proof.
  intros Hx. induction es as [|e es IH]; [done|].
  rewrite run_cons. unfold deliver at 1. by rewrite Hx.
Qed.

Lemma headers_sent_step c e j :
  uncaught j = None → (headersSent j = false → armed j = true) →
  match e with
  | EvData _ =>
      uncaught (deliver (RevHeadersSent.handlers c) e j) = None ∧
      headersSent (deliver (RevHeadersSent.handlers c) e j) = headersSent j ∧
      armed (deliver (RevHeadersSent.handlers c) e j) = armed j
  | EvClose _ _ _ _ _ =>
      if headersSent j
      then uncaught (deliver (RevHeadersSent.handlers c) e j)
             = Some ERR_HTTP_HEADERS_SENT
      else uncaught (deliver (RevHeadersSent.handlers c) e j) = None ∧
           headersSent (deliver (RevHeadersSent.handlers c) e j) = true
  | _ =>
      uncaught (deliver (RevHeadersSent.handlers c) e j) = None ∧
      headersSent (deliver (RevHeadersSent.handlers c) e j) = true
  end.
Proof.
  intros Hu Harm. by_fields j. destruct e as [chunk| | |code sg t s t'].
  - by exec.
  - destruct hs; [|rewrite Harm by done]; exec; [destruct ar|]; by exec.
  - destruct hs; by exec.
  - destruct hs; exec; destruct (nonzero code); by exec.
Qed.

Lemma run_late_close c es j :
  uncaught j = None → (headersSent j = false → armed j = true) →
  uncaught (run (RevHeadersSent.handlers c) es j) =
    if late_close (headersSent j) es then Some ERR_HTTP_HEADERS_SENT else None.
Proof.
  revert j. induction es as [|e es IH]; intros j Hu Harm; [done|].
  rewrite run_cons. pose proof (headers_sent_step c e j Hu Harm) as H.
  destruct e as [chunk| | |code sg t s t']; simpl.
  - destruct H as (H1 & H2 & H3). rewrite IH.
    + by rewrite H2.
    + done.
    + rewrite H2, H3. exact Harm.
  - destruct H as (H1 & H2). rewrite IH; [by rewrite H2|done|congruence].
  - destruct H as (H1 & H2). rewrite IH; [by rewrite H2|done|congruence].
  - destruct (headersSent j).
    + by rewrite (run_crashed _ _ _ _ H).
    + destruct H as (H1 & H2). rewrite IH; [by rewrite H2|done|congruence].
Qed.

(** X3.  The first revision ([res.headersSent] guards on the watchdog and
    error callbacks only) raises out of a callback exactly when a close
    event is delivered after the request has already been answered, as
    happens when ffmpeg is killed by the watchdog or cannot be spawned and
    Node then emits close; the exception is [ERR_HTTP_HEADERS_SENT] from
    the unguarded [res.json].  A request that was answered 400 never
    raises. *)
Theorem headers_sent_raises_iff_late_close
    (r : Request) (w : World) (es : list event) :
  uncaught (serve_convert rev_headers_sent r w es) =
    match audio r, image r with
    | Some _, Some _ =>
        if late_close false es then Some ERR_HTTP_HEADERS_SENT else None
    | _, _ => None
    end.
Proof.
  unfold serve_convert, convert.
  destruct (audio r) as [a|], (image r) as [i|]; try done.
  simpl callbacks. by rewrite run_late_close.
Qed.

(** * When the process is killed *)

Lemma kills_app l1 l2 : kills (l1 ++ l2) = (kills l1 + kills l2)%nat.
Proof. induction l1 as [|x l1 IH]; simpl; [done|]. rewrite IH. lia. Qed.

Lemma kills_unlinks (ps : list string) : kills (JUnlink <$> ps) = 0%nat.
Proof. induction ps as [|p ps IH]; [done|]. simpl. exact IH. Qed.

Ltac count_kills :=
  repeat (rewrite ?cleaned_journal, ?register_journal, ?kills_app,
            ?kills_unlinks; simpl);
  try lia.

(** One delivery calls [ff.kill] exactly when it runs the watchdog
    callback, and never re-arms the timer. *)
Lemma deliver_kills v c e j :
  v ∈ revisions →
  kills (journal (world (deliver (callbacks v c) e j))) =
    (kills (journal (world j)) +
     if is_watchdog e && armed j && bool_decide (uncaught j = None)
     then 1 else 0)%nat ∧
  (armed j = false → armed (deliver (callbacks v c) e j) = false) ∧
  (uncaught j = None → terminal e = true →
   armed (deliver (callbacks v c) e j) = false).
Proof.
  unfold revisions. rewrite !elem_of_cons, elem_of_nil.
  intros [->|[->|[->|[]]]]; by_fields j;
    (destruct uc; [exec; split; [count_kills; by destruct (is_watchdog e), ar|done]|]);
    destruct e as [chunk| | |code sg t s t']; exec;
    try destruct ar; try destruct rs; try destruct hs; exec;
    try destruct (nonzero code); exec; (split; [count_kills|done]).
Qed.

Lemma run_kills_unarmed v c es j :
  v ∈ revisions → armed j = false →
  kills (journal (world (run (callbacks v c) es j))) = kills (journal (world j)).
Proof.
  intros Hv. revert j. induction es as [|e es IH]; intros j Hj; [done|].
  rewrite run_cons. destruct (deliver_kills v c e j Hv) as (K & A & _).
  rewrite IH, K, Hj by auto. rewrite andb_false_r. simpl. lia.
Qed.

Lemma run_kills v c es j :
  v ∈ revisions → pending j →
  kills (journal (world (run (callbacks v c) es j))) =
    (kills (journal (world j)) +
     match first_terminal es with Some EvWatchdog => 1 | _ => 0 end)%nat.
Proof.
  intros Hv. revert j. induction es as [|e es IH]; intros j Hj; [simpl; lia|].
  rewrite run_cons. destruct (deliver_kills v c e j Hv) as (K & _ & A).
  destruct Hj as [H1 H2 H3 H4 H5].
  unfold first_terminal. rewrite filter_cons.
  destruct (decide (terminal e = true)) as [He|He]; simpl.
  - rewrite run_kills_unarmed, K, H5, H3 by auto.
    rewrite bool_decide_eq_true_2 by done. by destruct e.
  - destruct e; try done. rewrite IH, K.
    + simpl. unfold first_terminal. lia.
    + apply (fw_data _ _ (revisions_first_wins v c Hv)). by split.
Qed.

(** X4.  In each of the three revisions, [ff.kill("SIGKILL")] is called
    exactly once when the watchdog is the first terminal event of the job
    and never otherwise: the error and close callbacks clear the timer
    before anything else, so a process that has closed or failed to spawn
    is never signalled, and a request answered 400 has no process at
    all. *)
Theorem sigkill_sent_iff_watchdog_first :
  Forall (λ v, ∀ (r : Request) (w : World) (es : list event),
    kills (job_journal v r w es) =
      match audio r, image r, first_terminal es with
      | Some _, Some _, Some EvWatchdog => 1%nat
      | _, _, _ => 0%nat
      end) revisions.
Proof.
  apply Forall_forall. intros v Hv r w es.
  unfold job_journal, serve_convert, convert.
  destruct (audio r) as [a|], (image r) as [i|]; simpl;
    try (rewrite drop_app_length; done).
  pose proof (run_kills v (closure_of r a i) es (fresh w true) Hv
                (fresh_pending w)) as K.
  destruct (run_journal v (closure_of r a i) es (fresh w true) Hv)
    as (k & E & _).
  rewrite E in K |- *. simpl in K |- *. rewrite kills_app in K.
  rewrite drop_app_length.
  destruct (first_terminal es) as [[]|]; lia.
Qed.

(** * The registry and the outcome of a job *)

Lemma register_downloads id out t w :
  downloads (register id out t w) =
    <[id := {| path := out; createdAt := t |}]> (downloads w).
Proof.
  apply map_eq. intros k. rewrite register_lookup, lookup_insert.
  by destruct (decide (id = k)).
Qed.

Ltac registry :=
  repeat (rewrite ?cleaned_downloads, ?register_downloads; simpl).

(** In the revisions that answer through [safeRespond], a job that has
    answered leaves the registry alone. *)
Lemma settled_keeps_registry v c e j :
  v ∈ [rev_safe_respond; rev_light] → headersSent j = true →
  downloads (world (deliver (callbacks v c) e j)) = downloads (world j).
Proof.
  rewrite !elem_of_cons, elem_of_nil.
  intros [->|[->|[]]] Hs; by_fields j; (destruct uc; [by exec|]);
    destruct e as [chunk| | |code sg t s t']; exec;
    try destruct ar; try destruct rs; exec; by registry.
Qed.

Lemma first_outcome_registry v c e j :
  v ∈ revisions → pending j → terminal e = true →
  downloads (world (deliver (callbacks v c) e j))
    = registered c (Some e) (downloads (world j)).
Proof.
  unfold revisions. rewrite !elem_of_cons, elem_of_nil.
  intros [->|[->|[->|[]]]] [] He; by_fields j;
    (destruct e as [chunk| | |code sg t s t']; [done|..]); exec;
    try (destruct (nonzero code)); exec; by registry.
Qed.

Lemma data_keeps_registry v c chunk j :
  v ∈ revisions →
  downloads (world (deliver (callbacks v c) (EvData chunk) j))
    = downloads (world j).
Proof.
  unfold revisions. rewrite !elem_of_cons, elem_of_nil.
  intros [->|[->|[->|[]]]]; by_fields j; destruct uc; by exec.
Qed.

Lemma run_settled_registry v c es j :
  v ∈ [rev_safe_respond; rev_light] → headersSent j = true →
  downloads (world (run (callbacks v c) es j)) = downloads (world j).
Proof.
  intros Hv. revert j. induction es as [|e es IH]; intros j Hj; [done|].
  assert (v ∈ revisions) as Hv'.
  { revert Hv. unfold revisions. rewrite !elem_of_cons. tauto. }
  rewrite run_cons, IH.
  - by apply settled_keeps_registry.
  - by apply (fw_later c _ (revisions_first_wins v c Hv')).
Qed.

(** X5.  In the two revisions that answer through [safeRespond], the
    registry follows the reported outcome: after any sequence of events it
    is the registry as it was, plus the one new entry when the first
    terminal event is exit code 0, and unchanged when the job timed out,
    failed, could not be spawned, is still running or was answered 400.
    Events that come after the first terminal one never register
    anything. *)
Theorem registry_follows_first_outcome :
  Forall (λ v, ∀ (r : Request) (w : World) (es : list event),
    downloads (world (serve_convert v r w es)) =
      match audio r, image r with
      | Some a, Some i =>
          registered (closure_of r a i) (first_terminal es) (downloads w)
      | _, _ => downloads w
      end) [rev_safe_respond; rev_light].
Proof.
  apply Forall_forall. intros v Hv r w es.
  assert (v ∈ revisions) as Hv'.
  { revert Hv. unfold revisions. rewrite !elem_of_cons. tauto. }
  unfold serve_convert, convert.
  destruct (audio r) as [a|], (image r) as [i|]; try done.
  set (c := closure_of r a i).
  change (downloads w) with (downloads (world (fresh w true))).
  generalize (fresh_pending w). generalize (fresh w true). clear w.
  induction es as [|e es IH]; intros j Hj; [done|].
  rewrite run_cons. unfold first_terminal. rewrite filter_cons.
  pose proof (revisions_first_wins v c Hv') as W.
  destruct (decide (terminal e = true)) as [He|He]; simpl.
  - destruct (fw_first c _ W e j He Hj) as (_ & _ & _ & Hs).
    rewrite run_settled_registry by done.
    by apply first_outcome_registry.
  - destruct e; try done. rewrite IH by (by apply W).
    by rewrite data_keeps_registry.
Qed.

(** X6.  In the first revision the close callback is not guarded: when
    the watchdog has answered 504 and deleted the files, and ffmpeg then
    closes with exit code 0, the callback still registers the output path
    under a new id before [res.json] raises.  The one response written is
    the 504, so no response announces that id, and the entry points at a
    file that is gone.  It is the last thing the process does: the
    exception is uncaught. *)
Theorem headers_sent_late_success_dangles
    (c : Closure) (j : Job) (sg : option string) (t : Z) (s : string) (t' : Z) :
  pending j → outPath c ≠ "" →
  wire (run (RevHeadersSent.handlers c)
          [EvWatchdog; EvClose (Some 0) sg t s t'] j)
    = [{| status := 504; headers := [];
          body := BJson (PError "ffmpeg_timeout") |}] ∧
  uncaught (run (RevHeadersSent.handlers c)
              [EvWatchdog; EvClose (Some 0) sg t s t'] j)
    = Some ERR_HTTP_HEADERS_SENT ∧
  downloads (world (run (RevHeadersSent.handlers c)
                      [EvWatchdog; EvClose (Some 0) sg t s t'] j))
    !! make_id t s = Some {| path := outPath c; createdAt := t' |} ∧
  is_file (fs (world (run (RevHeadersSent.handlers c)
                        [EvWatchdog; EvClose (Some 0) sg t s t'] j))
             !! outPath c) = false ∧
  (∀ later, run (RevHeadersSent.handlers c)
              ([EvWatchdog; EvClose (Some 0) sg t s t'] ++ later) j
            = run (RevHeadersSent.handlers c)
                [EvWatchdog; EvClose (Some 0) sg t s t'] j).
Proof.
  intros [] Ho. by_fields j.
  assert (Hu : uncaught (run (RevHeadersSent.handlers c)
             [EvWatchdog; EvClose (Some 0) sg t s t']
             {| world := w; headersSent := false; wire := []; responded := false;
                armed := true; errTail := et; uncaught := None |})
           = Some ERR_HTTP_HEADERS_SENT)
    by (unfold run; simpl foldl; by exec).
  split; [|split; [done|split; [|split]]].
  - unfold run. simpl foldl. by exec.
  - unfold run. simpl foldl. exec. rewrite ?nonzero_zero. exec.
    by rewrite register_lookup, decide_True.
  - unfold run. simpl foldl. exec. rewrite ?nonzero_zero. exec. by gone.
  - intros later. by eapply run_crashed.
Qed.

(** * From conversion to download *)

(** X7.  In each of the three revisions, when ffmpeg exits with code 0
    before anything else ends the job and has left a regular file at the
    output path, the single response is the 200 whose [id] and [url] name
    the entry just registered, and a download of that id streams the
    output path with the size of the file as [Content-Length], leaving the
    server state as it is. *)
Theorem converted_file_is_downloadable
    (v : Revision) (c : Closure) (j : Job)
    (sg : option string) (t : Z) (s : string) (t' : Z) (size : Z) :
  v ∈ revisions → pending j →
  outPath c ≠ audioPath c → outPath c ≠ imagePath c →
  fs (world j) !! outPath c = Some (File size) →
  wire (deliver (callbacks v c) (EvClose (Some 0) sg t s t') j)
    = [{| status := 200; headers := [];
          body := BJson (PSuccess (download_url c (make_id t s))
                                  (make_id t s) 600) |}] ∧
  download (make_id t s)
           (world (deliver (callbacks v c) (EvClose (Some 0) sg t s t') j))
    = (stream_response (outPath c) size,
       world (deliver (callbacks v c) (EvClose (Some 0) sg t s t') j)).
Proof.
  intros Hv Hj Hoa Hoi Hfile. split.
  - destruct (fw_first c _ (revisions_first_wins v c Hv)
                (EvClose (Some 0) sg t s t') j eq_refl Hj) as (r & -> & Hr & _).
    simpl in Hr. by rewrite Hr.
  - destruct (success_world v c j sg t s t' Hv Hj Hoa Hoi) as [Hfs Hreg].
    pose proof (download_cases (make_id t s)
      (world (deliver (callbacks v c) (EvClose (Some 0) sg t s t') j))) as H.
    rewrite Hreg in H. simpl in H. by rewrite Hfs, Hfile in H.
Qed.

(** X8.  A request that lacks the audio or the image part is answered 400
    and nothing else happens, whatever is delivered afterwards: no process,
    no kill, no [fs.unlink].  The store and the registry are as they were,
    so a part that was uploaded stays in the temp directory. *)
Theorem missing_part_leaves_uploads
    (v : Revision) (r : Request) (w : World) (es : list event) :
  audio r = None ∨ image r = None →
  wire (serve_convert v r w es)
    = [{| status := 400; headers := []; body := BJson (PError (missing v)) |}] ∧
  job_journal v r w es = [JSend 400] ∧
  fs (world (serve_convert v r w es)) = fs w ∧
  downloads (world (serve_convert v r w es)) = downloads w ∧
  uncaught (serve_convert v r w es) = None ∧
  armed (serve_convert v r w es) = false.
Proof.
  intros H. unfold job_journal, serve_convert, convert.
  destruct (audio r) as [a|], (image r) as [i|]; try (by destruct H);
    simpl; by rewrite drop_app_length.
Qed.

(** * Sweeps and downloads *)

(** X9.  A sweep leaves nothing for an earlier or simultaneous sweep to
    do: run at a time not later than the previous one, the callback
    removes no entry, calls [fs.unlink] on nothing and returns the server
    state unchanged. *)
Theorem sweep_again_is_noop (now now' : Z) (w : World) :
  (now' <= now)%Z →
  sweep now' (sweep now w).2 = (Returned tt, (sweep now w).2).
Proof.
  intros Hle.
  destruct (sweep_run now w) as (w1 & -> & [Hd _ _]). simpl.
  destruct (sweep_run now' w1) as (w2 & -> & [Hd2 Hf2 (l & Hj2 & Hl & Hin)]).
  assert (Hfresh : ∀ id info, downloads w1 !! id = Some info →
                              expired now' info = false).
  { intros id info. rewrite Hd.
    destruct (downloads w !! id) as [info0|] eqn:E; [|done].
    destruct (expired now info0) eqn:Ex; [done|]. intros [= ->].
    unfold expired in *. apply bool_decide_eq_false in Ex.
    apply bool_decide_eq_false. lia. }
  assert (Hnone : ∀ p, ¬ ∃ id info, downloads w1 !! id = Some info ∧
                                     expired now' info = true ∧ path info = p).
  { intros p (id & info & Hid & Ex & _). rewrite (Hfresh _ _ Hid) in Ex. done. }
  assert (l = []) as ->.
  { destruct l as [|x l]; [done|]. exfalso.
    inversion Hl as [|? ? Hx _]; subst. destruct x as [e| |p|st]; try done.
    apply (Hnone p). apply Hin. by left. }
  f_equal. destruct w1 as [f1 d1 j1], w2 as [f2 d2 j2]. simpl in *.
  rewrite app_nil_r in Hj2. f_equal; [| |done].
  - apply map_eq. intros p. rewrite Hf2. case_bool_decide as H; [|done].
    destruct H as [_ H]. by destruct (Hnone p).
  - apply map_eq. intros id. rewrite Hd2.
    destruct (d1 !! id) as [info|] eqn:E; [|done].
    by rewrite (Hfresh id info E).
Qed.

(** X10.  Whatever a download answers 200 to right after a sweep was
    registered at most the TTL before the sweep: the id was in the registry
    before the sweep with [now - createdAt <= DOWNLOAD_TTL_MS], it still
    is, and a regular file was and is at its path. *)
Theorem resolvable_after_sweep_is_fresh (now : Z) (w : World) (id : string) :
  status (download id (sweep now w).2).1 = 200 →
  ∃ info,
    downloads w !! id = Some info ∧
    (now - createdAt info <= DOWNLOAD_TTL_MS)%Z ∧
    downloads (sweep now w).2 !! id = Some info ∧
    is_file (fs w !! path info) = true ∧
    is_file (fs (sweep now w).2 !! path info) = true.
Proof.
  intros H. apply download_status in H as (info & Hid & Hf).
  rewrite sweep_lookup in Hid.
  destruct (downloads w !! id) as [info0|] eqn:E; [|done].
  destruct (expired now info0) eqn:Ex; [done|]. injection Hid as ->.
  exists info. split; [done|]. split.
  { unfold expired in Ex. apply bool_decide_eq_false in Ex. lia. }
  split; [by rewrite sweep_lookup, E, Ex|]. split; [|done].
  destruct (sweep_run now w) as (w1 & Hrun & [_ Hfs _]).
  rewrite Hrun in Hf. simpl in Hf. rewrite Hfs in Hf.
  by case_bool_decide.
Qed.

(** * Composition of cleanups *)

Transparent cleaned truthy_paths.

Lemma truthy_paths_app l1 l2 :
  truthy_paths (l1 ++ l2) = truthy_paths l1 ++ truthy_paths l2.
Proof.
  induction l1 as [|p l1 IH]; [done|].
  destruct p as [| |s]; simpl; try done.
  case_bool_decide; [done|]. simpl. by rewrite IH.
Qed.

Lemma truthy_paths_single s : s ≠ "" → truthy_paths [JString s] = [s].
Proof. intros H. simpl. by rewrite bool_decide_eq_false_2. Qed.

Lemma cleaned_app l1 l2 w : cleaned (l1 ++ l2) w = cleaned l2 (cleaned l1 w).
Proof.
  unfold cleaned. simpl.
  by rewrite truthy_paths_app, foldl_app, fmap_app, app_assoc.
Qed.

Opaque cleaned truthy_paths.

(** X11.  Cleanups compose: deleting a list of paths in two calls is the
    same as deleting them in one (so the close callback's
    [cleanupFiles([audioPath, imagePath])] followed by
    [cleanupFiles([outPath])] leaves what the other callbacks'
    single call leaves); repeating a cleanup changes nothing in the store;
    and the store that results does not depend on the order of the two
    halves. *)
Theorem cleanupFiles_composes (l1 l2 : list jsval) (w : World) :
  cleanupFiles (l1 ++ l2) w = cleanupFiles l2 (cleanupFiles l1 w).2 ∧
  fs (cleanupFiles l1 (cleanupFiles l1 w).2).2 = fs (cleanupFiles l1 w).2 ∧
  fs (cleanupFiles (l1 ++ l2) w).2 = fs (cleanupFiles (l2 ++ l1) w).2.
Proof.
  rewrite !cleanupFiles_run. simpl. split; [by rewrite cleaned_app|]. split.
  - apply map_eq. intros p. rewrite !cleaned_fs_lookup.
    destruct (is_file (fs w !! p)) eqn:F; repeat case_bool_decide;
      try done; destruct_and?; simpl in *; try done; try congruence; tauto.
  - apply map_eq. intros p. rewrite !cleaned_app, !cleaned_fs_lookup.
    destruct (is_file (fs w !! p)) eqn:F; repeat case_bool_decide;
      try done; destruct_and?; simpl in *; try done; try congruence; tauto.
Qed.

(** * The server only deletes *)

Ltac kept :=
  repeat match goal with
         | H : context [fs (register _ _ _ _)] |- _ => rewrite register_fs in H
         | H : fs (cleaned _ _) !! _ = Some _ |- _ =>
             rewrite cleaned_fs_lookup in H;
             case_bool_decide; [discriminate H|]
         end.

Lemma deliver_keeps_nodes v c e j p n :
  v ∈ revisions →
  fs (world (deliver (callbacks v c) e j)) !! p = Some n →
  fs (world j) !! p = Some n.
Proof.
  unfold revisions. rewrite !elem_of_cons, elem_of_nil.
  intros [->|[->|[->|[]]]]; by_fields j; (destruct uc; [by exec|]);
    destruct e as [chunk| | |code sg t s t']; exec;
    try destruct ar; try destruct rs; try destruct hs; exec;
    try destruct (nonzero code); exec; intros H; by kept.
Qed.

Lemma serve_keeps_nodes o w p n :
  fs (serve o w).2 !! p = Some n → fs w !! p = Some n.
Proof.
  destruct o as [now|now id|t_id suffix t_created out|paths]; simpl.
  - destruct (sweep_run now w) as (w' & -> & [_ Hf _]). simpl.
    rewrite Hf. by case_bool_decide.
  - pose proof (download_cases id w) as H.
    destruct (download id w) as [r w'] eqn:E. simpl.
    destruct (downloads w !! id) as [info|].
    + destruct (fs w !! path info) as [[size|]|]; by simplify_eq.
    + by simplify_eq.
  - by rewrite register_fs.
  - rewrite cleanupFiles_run. simpl. intros H. by kept.
Qed.

(** X12.  The service never creates or changes a file: after any sequence
    of sweeps, downloads, registrations and cleanups, and after any
    sequence of events delivered to the callbacks of a job in any of the
    three revisions, whatever is found at a path of the store was there
    before, unchanged.  Files come from multer and ffmpeg only. *)
Theorem server_never_writes_files :
  (∀ (ops : list op) (w : World) (p : string) (n : node),
     fs (serve_all ops w) !! p = Some n → fs w !! p = Some n) ∧
  Forall (λ v, ∀ (c : Closure) (es : list event) (j : Job) (p : string) (n : node),
     fs (world (run (callbacks v c) es j)) !! p = Some n →
     fs (world j) !! p = Some n) revisions.
Proof.
  split.
  - intros ops. induction ops as [|o ops IH]; intros w p n; [done|].
    rewrite serve_all_cons. intros H. apply IH in H.
    by apply serve_keeps_nodes in H.
  - apply Forall_forall. intros v Hv c es.
    induction es as [|e es IH]; intros j p n; [done|].
    rewrite run_cons. intros H. apply IH in H.
    by apply deliver_keeps_nodes in H.
Qed.

(** * Output paths *)

Lemma string_app_inv_tail (a b c : string) : a +:+ c = b +:+ c → a = b.
Proof.
  revert b. induction a as [|x a IH]; intros [|y b] H.
  - done.
  - apply (f_equal String.length) in H. rewrite !slen_app in H. simpl in H. lia.
  - apply (f_equal String.length) in H. rewrite !slen_app in H. simpl in H. lia.
  - change (String x (a +:+ c) = String y (b +:+ c)) in H.
    injection H as -> H. f_equal. by apply IH.
Qed.

(** X13.  Two conversion requests write to the same output file only if
    they read the same [Date.now()] and draw the same text from
    [Math.random()]: the output path determines both, and it is never
    empty (so [cleanupFiles] never skips it). *)
Theorem make_outPath_inj (t1 : Z) (s1 : string) (t2 : Z) (s2 : string) :
  (make_outPath t1 s1 = make_outPath t2 s2 ↔ t1 = t2 ∧ s1 = s2) ∧
  make_outPath t1 s1 ≠ "" ∧
  truthy_paths [JString (make_outPath t1 s1)] = [make_outPath t1 s1].
Proof.
  split; [|split].
  - split; [|by intros [-> ->]].
    unfold make_outPath. intros H.
    assert (make_id t1 (s1 +:+ ".mp4") = make_id t2 (s2 +:+ ".mp4")) as Hid.
    { unfold make_id. apply (inj (String.app "/tmp/output-")) in H.
      by rewrite H. }
    apply make_id_inj in Hid as [-> Hs]. split; [done|].
    by apply string_app_inv_tail in Hs.
  - done.
  - by apply truthy_paths_single.
Qed.

(** * What a job leaves alone *)

Lemma deliver_frame v c e j p :
  v ∈ revisions →
  p ≠ audioPath c → p ≠ imagePath c → p ≠ outPath c →
  fs (world (deliver (callbacks v c) e j)) !! p = fs (world j) !! p.
Proof.
  intros Hv Ha Hi Ho.
  assert (H3 : ∀ s, JString s ∈ all_three c → s ≠ p).
  { intros s. unfold all_three. rewrite !elem_of_cons, elem_of_nil.
    intros [[= ->]|[[= ->]|[[= ->]|[]]]]; congruence. }
  assert (H2 : ∀ s, JString s ∈ inputs c → s ≠ p).
  { intros s. unfold inputs. rewrite !elem_of_cons, elem_of_nil.
    intros [[= ->]|[[= ->]|[]]]; congruence. }
  assert (H1 : ∀ s, JString s ∈ [JString (outPath c)] → s ≠ p).
  { intros s. rewrite !elem_of_cons, elem_of_nil.
    intros [[= ->]|[]]; congruence. }
  revert Hv. unfold revisions. rewrite !elem_of_cons, elem_of_nil.
  intros [->|[->|[->|[]]]]; by_fields j; (destruct uc; [by exec|]);
    destruct e as [chunk| | |code sg t s t']; exec;
    try destruct ar; try destruct rs; try destruct hs; exec;
    try destruct (nonzero code); exec;
    rewrite ?register_fs, ?cleaned_other by assumption; done.
Qed.

(** X14.  In each of the three revisions the callbacks of a job touch no
    file but its own three: whatever events are delivered, every other
    path of the store holds what it held (another request's uploads and
    output, and the files of the registry, are safe from this job). *)
Theorem job_touches_only_its_files
    (v : Revision) (c : Closure) (es : list event) (j : Job) (p : string) :
  v ∈ revisions →
  p ≠ audioPath c → p ≠ imagePath c → p ≠ outPath c →
  fs (world (run (callbacks v c) es j)) !! p = fs (world j) !! p.
Proof.
  intros Hv Ha Hi Ho. revert j.
  induction es as [|e es IH]; intros j; [done|].
  rewrite run_cons, IH. by apply deliver_frame.
Qed.

(** * Downloads do not disturb one another *)

(** X15.  A download never changes the answer to a later download, of the
    same id or of another: either it changes nothing, or it evicts an
    entry whose file is missing, and that id was answered 404 and still
    is. *)
Theorem download_answers_are_stable (id id' : string) (w : World) :
  (download id' (download id w).2).1 = (download id' w).1.
Proof.
  pose proof (download_cases id w) as H.
  destruct (downloads w !! id) as [info|] eqn:E; [|by rewrite H].
  destruct (fs w !! path info) as [[size|]|] eqn:F; rewrite H; simpl; try done.
  - pose proof (download_cases id' (set_downloads (delete id) w)) as H1.
    pose proof (download_cases id' w) as H2. simpl in H1.
    destruct (decide (id = id')) as [<-|Hne].
    + rewrite lookup_delete_eq in H1. rewrite E, F in H2. by rewrite H1, H2.
    + rewrite lookup_delete_ne in H1 by done.
      destruct (downloads w !! id') as [info'|]; [|by rewrite H1, H2].
      destruct (fs w !! path info') as [[size'|]|]; by rewrite H1, H2.
  - pose proof (download_cases id' (set_downloads (delete id) w)) as H1.
    pose proof (download_cases id' w) as H2. simpl in H1.
    destruct (decide (id = id')) as [<-|Hne].
    + rewrite lookup_delete_eq in H1. rewrite E, F in H2. by rewrite H1, H2.
    + rewrite lookup_delete_ne in H1 by done.
      destruct (downloads w !! id') as [info'|]; [|by rewrite H1, H2].
      destruct (fs w !! path info') as [[size'|]|]; by rewrite H1, H2.
Qed.

(** * Further instances *)

Lemma stderr_tail_is_last_chars_witness :
  forallb ascii_text sample_long_stderr = true ∧
  N.of_nat (String.length (chunks_text sample_long_stderr)) = 13000%N ∧
  N.of_nat (String.length (last_chars 6000 (chunks_text sample_long_stderr)))
    = 6000%N ∧
  N.of_nat (String.length (last_chars 12000 (chunks_text sample_long_stderr)))
    = 12000%N ∧
  errTail (run (RevHeadersSent.handlers sample_closure)
             (EvData <$> sample_long_stderr) (fresh sample_world true))
    = last_chars 6000 (chunks_text sample_long_stderr) ∧
  errTail (run (RevSafeRespond.handlers sample_closure)
             (EvData <$> sample_long_stderr) (fresh sample_world true))
    = last_chars 12000 (chunks_text sample_long_stderr).
Proof.
  assert (H1 : forallb ascii_text sample_long_stderr = true)
    by (vm_compute; reflexivity).
  split; [assumption|].
  split; [vm_compute; reflexivity|].
  split; [vm_compute; reflexivity|].
  split; [vm_compute; reflexivity|].
  exact (proj1 (stderr_tail_is_last_chars sample_closure sample_world
    sample_long_stderr H1)).
Defined.

Lemma failure_details_are_stderr_tail_witness :
  audio sample_request = Some {| upath := "/tmp/3f9a61"; usize := 2000000 |} ∧
  image sample_request = Some {| upath := "/tmp/77c1d0"; usize := 500000 |} ∧
  Some 1 ≠ Some 0 ∧
  forallb ascii_text sample_long_stderr = true ∧
  N.of_nat (String.length (chunks_text sample_long_stderr)) = 13000%N ∧
  N.of_nat (String.length (last_chars 6000 (chunks_text sample_long_stderr)))
    = 6000%N ∧
  N.of_nat (String.length (last_chars 4000 (chunks_text sample_long_stderr)))
    = 4000%N ∧
  wire (serve_convert rev_headers_sent sample_request sample_world
          ((EvData <$> sample_long_stderr)
             ++ EvClose (Some 1) None 0 "" 0 :: [EvWatchdog]))
    = [{| status := 500; headers := [];
          body := BJson (PFailed (Some 1) None
                    (Some (last_chars 6000 (chunks_text sample_long_stderr)))) |}] ∧
  wire (serve_convert rev_safe_respond sample_request sample_world
          ((EvData <$> sample_long_stderr)
             ++ EvClose (Some 1) None 0 "" 0 :: [EvWatchdog]))
    = [{| status := 500; headers := [];
          body := BJson (PFailed (Some 1) None
                    (Some (last_chars 4000 (chunks_text sample_long_stderr)))) |}] ∧
  wire (serve_convert rev_light sample_request sample_world
          ((EvData <$> sample_long_stderr)
             ++ EvClose (Some 1) None 0 "" 0 :: [EvWatchdog]))
    = [{| status := 500; headers := [];
          body := BJson (PFailed (Some 1) None None) |}].
Proof.
  assert (H1 : audio sample_request
               = Some {| upath := "/tmp/3f9a61"; usize := 2000000 |})
    by reflexivity.
  assert (H2 : image sample_request
               = Some {| upath := "/tmp/77c1d0"; usize := 500000 |})
    by reflexivity.
  assert (H3 : Some 1 ≠ Some 0) by discriminate.
  assert (H4 : forallb ascii_text sample_long_stderr = true)
    by (vm_compute; reflexivity).
  repeat (split; [assumption|]).
  split; [vm_compute; reflexivity|].
  split; [vm_compute; reflexivity|].
  split; [vm_compute; reflexivity|].
  exact (failure_details_are_stderr_tail sample_request _ _ sample_world
    sample_long_stderr (Some 1) None 0 "" 0 [EvWatchdog] H1 H2 H3 H4).
Defined.

Lemma headers_sent_late_success_dangles_witness :
  pending (fresh sample_world true) ∧ outPath sample_closure ≠ "" ∧
  wire (run (RevHeadersSent.handlers sample_closure)
          [EvWatchdog; EvClose (Some 0) None 1700000120000 "c41b" 1700000120001]
          (fresh sample_world true))
    = [{| status := 504; headers := [];
          body := BJson (PError "ffmpeg_timeout") |}] ∧
  uncaught (run (RevHeadersSent.handlers sample_closure)
              [EvWatchdog; EvClose (Some 0) None 1700000120000 "c41b" 1700000120001]
              (fresh sample_world true))
    = Some ERR_HTTP_HEADERS_SENT.
Proof.
  assert (H1 : pending (fresh sample_world true)) by (split; reflexivity).
  assert (H2 : outPath sample_closure ≠ "") by discriminate.
  repeat (split; [assumption|]).
  destruct (headers_sent_late_success_dangles sample_closure
    (fresh sample_world true) None 1700000120000 "c41b" 1700000120001 H1 H2)
    as (Hw & Hu & _).
  split; [exact Hw|exact Hu].
Defined.

Lemma converted_file_is_downloadable_witness :
  rev_light ∈ revisions ∧ pending (fresh sample_world true) ∧
  outPath sample_closure ≠ audioPath sample_closure ∧
  outPath sample_closure ≠ imagePath sample_closure ∧
  fs (world (fresh sample_world true)) !! outPath sample_closure
    = Some (File 65536) ∧
  download (make_id 1700000030000 "c41b")
           (world (deliver (callbacks rev_light sample_closure) sample_success
                     (fresh sample_world true)))
    = (stream_response (outPath sample_closure) 65536,
       world (deliver (callbacks rev_light sample_closure) sample_success
                (fresh sample_world true))).
Proof.
  assert (H1 : rev_light ∈ revisions) by repeat constructor.
  assert (H2 : pending (fresh sample_world true)) by (split; reflexivity).
  assert (H3 : outPath sample_closure ≠ audioPath sample_closure) by discriminate.
  assert (H4 : outPath sample_closure ≠ imagePath sample_closure) by discriminate.
  assert (H5 : fs (world (fresh sample_world true)) !! outPath sample_closure
               = Some (File 65536)) by (vm_compute; reflexivity).
  repeat (split; [assumption|]).
  exact (proj2 (converted_file_is_downloadable rev_light sample_closure
    (fresh sample_world true) None 1700000030000 "c41b" 1700000030001 65536
    H1 H2 H3 H4 H5)).
Defined.

Lemma missing_part_leaves_uploads_witness :
  (audio sample_audio_only = None ∨ image sample_audio_only = None) ∧
  fs (world (serve_convert rev_headers_sent sample_audio_only sample_world
               [EvWatchdog])) = fs sample_world.
Proof.
  assert (H : audio sample_audio_only = None ∨ image sample_audio_only = None)
    by (right; reflexivity).
  split; [exact H|].
  exact (proj1 (proj2 (proj2 (missing_part_leaves_uploads rev_headers_sent
    sample_audio_only sample_world [EvWatchdog] H)))).
Defined.

Lemma sweep_again_is_noop_witness :
  (650000 <= 700000)%Z ∧
  sweep 650000 (sweep 700000 late_world).2
    = (Returned tt, (sweep 700000 late_world).2).
Proof.
  assert (H : (650000 <= 700000)%Z) by lia.
  split; [exact H|].
  exact (sweep_again_is_noop 700000 650000 late_world H).
Defined.

Lemma resolvable_after_sweep_is_fresh_witness :
  status (download "dl-1000-8f3a" (sweep 601000 sample_registered).2).1 = 200 ∧
  ∃ info,
    downloads sample_registered !! "dl-1000-8f3a" = Some info ∧
    (601000 - createdAt info <= DOWNLOAD_TTL_MS)%Z ∧
    downloads (sweep 601000 sample_registered).2 !! "dl-1000-8f3a" = Some info ∧
    is_file (fs sample_registered !! path info) = true ∧
    is_file (fs (sweep 601000 sample_registered).2 !! path info) = true.
Proof.
  assert (H : status (download "dl-1000-8f3a"
                        (sweep 601000 sample_registered).2).1 = 200)
    by (vm_compute; reflexivity).
  split; [exact H|].
  exact (resolvable_after_sweep_is_fresh 601000 sample_registered
           "dl-1000-8f3a" H).
Defined.

Lemma job_touches_only_its_files_witness :
  rev_safe_respond ∈ revisions ∧
  "/tmp/output-1000-8f3a.mp4" ≠ audioPath sample_closure ∧
  "/tmp/output-1000-8f3a.mp4" ≠ imagePath sample_closure ∧
  "/tmp/output-1000-8f3a.mp4" ≠ outPath sample_closure ∧
  fs (world (run (callbacks rev_safe_respond sample_closure)
               [EvWatchdog; EvClose None (Some "SIGKILL") 0 "" 0]
               (fresh late_world true))) !! "/tmp/output-1000-8f3a.mp4"
    = fs (world (fresh late_world true)) !! "/tmp/output-1000-8f3a.mp4".
Proof.
  assert (H1 : rev_safe_respond ∈ revisions) by repeat constructor.
  assert (H2 : "/tmp/output-1000-8f3a.mp4" ≠ audioPath sample_closure)
    by discriminate.
  assert (H3 : "/tmp/output-1000-8f3a.mp4" ≠ imagePath sample_closure)
    by discriminate.
  assert (H4 : "/tmp/output-1000-8f3a.mp4" ≠ outPath sample_closure)
    by discriminate.
  repeat (split; [assumption|]).
  exact (job_touches_only_its_files rev_safe_respond sample_closure
    [EvWatchdog; EvClose None (Some "SIGKILL") 0 "" 0]
    (fresh late_world true) "/tmp/output-1000-8f3a.mp4" H1 H2 H3 H4).
Defined.
